(** * Calendar sync service (main.py): a shallow embedding and its properties

    The development follows the layout of [main.py]: text helpers standing
    for the Python [str] methods the program calls, the [datetime] values it
    manipulates, [CalendarEvent] with its derived keys, the SQLite tables of
    [_create_tables] with the statements the service executes, the sheet
    reader, the retry loop and the reconciliation loop of [sync_events].

    Modelling conventions.
    - Python [str] is [string]; text is taken in the ASCII range, so
      [strip], [lower] and [upper] act on ASCII white space and letters.
    - A [datetime] is the naive, whole-second value that [DateTimeParser]
      returns (no time zone, microsecond 0).
    - Exceptions are values: a computation returns [Ok v] or [Raise msg],
      where [msg] is what [str(e)] yields in the handlers.
    - Outbound calls (calendar service, [time.sleep], commits) are recorded
      in a chronological trace, so that "no calendar mutation" and the delay
      pattern of the retry loop are statements about that trace.
    - Durations are in milliseconds ([RETRY_DELAY = 1.0] s is 1000).
    - Logging, wall-clock durations and [CURRENT_TIMESTAMP] columns are not
      modelled. *)

From Stdlib Require Import NArith Ascii String.
Set Warnings "-abstract-large-number".
From stdpp Require Import base option list strings pretty gmap.

Local Open Scope string_scope.
Local Open Scope nat_scope.
Local Open Scope list_scope.

(** ** Python [str] helpers *)
Module PyStr.

Definition code (c : ascii) : nat := nat_of_ascii c.

(** [str.isspace] on the ASCII range: TAB..CR, FS..US and the blank. *)
Definition is_space (c : ascii) : bool :=
  let n := code c in
  ((9 <=? n) && (n <=? 13)) || ((28 <=? n) && (n <=? 32)).

Definition lower_char (c : ascii) : ascii :=
  let n := code c in
  if (65 <=? n) && (n <=? 90) then ascii_of_nat (n + 32) else c.

Definition upper_char (c : ascii) : ascii :=
  let n := code c in
  if (97 <=? n) && (n <=? 122) then ascii_of_nat (n - 32) else c.

Fixpoint map_chars (f : ascii -> ascii) (s : string) : string :=
  match s with
  | EmptyString => EmptyString
  | String c s' => String (f c) (map_chars f s')
  end.

Definition lower : string -> string := map_chars lower_char.
Definition upper : string -> string := map_chars upper_char.

Fixpoint lstrip (s : string) : string :=
  match s with
  | EmptyString => EmptyString
  | String c s' => if is_space c then lstrip s' else s
  end.

Fixpoint rstrip (s : string) : string :=
  match s with
  | EmptyString => EmptyString
  | String c s' =>
      match rstrip s' with
      | EmptyString => if is_space c then EmptyString else String c EmptyString
      | r => String c r
      end
  end.

Definition strip (s : string) : string := rstrip (lstrip s).

(** [s[:n]] *)
Fixpoint take (n : nat) (s : string) : string :=
  match n, s with
  | S k, String c s' => String c (take k s')
  | _, _ => EmptyString
  end.

Fixpoint starts_with (p s : string) : bool :=
  match p, s with
  | EmptyString, _ => true
  | String a p', String b s' => if Ascii.eqb a b then starts_with p' s' else false
  | String _ _, EmptyString => false
  end.

(** [s.replace(old, new)] for a non-empty [old]: a left-to-right scan that
    replaces each non-overlapping occurrence.  [skip] counts the characters
    of a matched occurrence still to be dropped. *)
Fixpoint replace_from (old new : string) (skip : nat) (s : string) : string :=
  match s with
  | EmptyString => EmptyString
  | String c s' =>
      match skip with
      | S k => replace_from old new k s'
      | O =>
          if starts_with old s
          then new +:+ replace_from old new (String.length old - 1) s'
          else String c (replace_from old new 0 s')
      end
  end.

Definition replace (old new s : string) : string := replace_from old new 0 s.

(** [sep.join(parts)] *)
Fixpoint join (sep : string) (parts : list string) : string :=
  match parts with
  | [] => EmptyString
  | [p] => p
  | p :: rest => p +:+ sep +:+ join sep rest
  end.

(** [re.sub(r'<[^>]+>', '', s)].  A match starts at a '<', takes one or more
    characters other than '>' (a further '<' included) and ends at the first
    '>' that follows.  The scan keeps the text of a tag that may still be
    open in [pending] (the characters read after its '<'); "<>" is not a
    match, and a '<' with no later '>' is kept with everything after it. *)
Fixpoint sub_tags_from (pending : option string) (s : string) : string :=
  match s with
  | EmptyString =>
      match pending with
      | None => EmptyString
      | Some body => String "<" body
      end
  | String c s' =>
      match pending with
      | None =>
          if Ascii.eqb c "<" then sub_tags_from (Some EmptyString) s'
          else String c (sub_tags_from None s')
      | Some body =>
          if Ascii.eqb c ">" then
            match body with
            | EmptyString => String "<" (String ">" (sub_tags_from None s'))
            | String _ _ => sub_tags_from None s'
            end
          else sub_tags_from (Some (body +:+ String c EmptyString)) s'
      end
  end.

Definition sub_tags (s : string) : string := sub_tags_from None s.

(** Python's [<] on [str] (by code point), used by [min] and [max]. *)
Fixpoint ltb (a b : string) : bool :=
  match a, b with
  | EmptyString, EmptyString => false
  | EmptyString, String _ _ => true
  | String _ _, EmptyString => false
  | String x a', String y b' =>
      if code x <? code y then true
      else if code y <? code x then false
      else ltb a' b'
  end.

(** [min(l)] and [max(l)] of a non-empty list keep the first extremal
    element; [d] is the head. *)
Definition min_str (d : string) (l : list string) : string :=
  fold_left (fun m x => if ltb x m then x else m) l d.
Definition max_str (d : string) (l : list string) : string :=
  fold_left (fun m x => if ltb m x then x else m) l d.

End PyStr.

(** ** [hashlib.sha256(data).hexdigest()]

    The digest of FIPS 180-4 on 32-bit words kept in [N] with the wrap-around
    written out.  The round constants and the initial hash value are given
    in decimal. *)
Module Sha256.
Local Open Scope N_scope.

Definition mask32 : N := 4294967295.
Definition add32 (a b : N) : N := (a + b) mod 4294967296.
Definition rotr (n x : N) : N :=
  N.lor (N.shiftr x n) (N.land (N.shiftl x (32 - n)) mask32).
Definition not32 (x : N) : N := N.lxor x mask32.

Definition ch (x y z : N) : N := N.lxor (N.land x y) (N.land (not32 x) z).
Definition maj (x y z : N) : N :=
  N.lxor (N.lxor (N.land x y) (N.land x z)) (N.land y z).
Definition big_sigma0 (x : N) : N := N.lxor (N.lxor (rotr 2 x) (rotr 13 x)) (rotr 22 x).
Definition big_sigma1 (x : N) : N := N.lxor (N.lxor (rotr 6 x) (rotr 11 x)) (rotr 25 x).
Definition small_sigma0 (x : N) : N := N.lxor (N.lxor (rotr 7 x) (rotr 18 x)) (N.shiftr x 3).
Definition small_sigma1 (x : N) : N := N.lxor (N.lxor (rotr 17 x) (rotr 19 x)) (N.shiftr x 10).

Definition round_constants : list N :=
  [
    1116352408; 1899447441; 3049323471; 3921009573;
    961987163; 1508970993; 2453635748; 2870763221;
    3624381080; 310598401; 607225278; 1426881987;
    1925078388; 2162078206; 2614888103; 3248222580;
    3835390401; 4022224774; 264347078; 604807628;
    770255983; 1249150122; 1555081692; 1996064986;
    2554220882; 2821834349; 2952996808; 3210313671;
    3336571891; 3584528711; 113926993; 338241895;
    666307205; 773529912; 1294757372; 1396182291;
    1695183700; 1986661051; 2177026350; 2456956037;
    2730485921; 2820302411; 3259730800; 3345764771;
    3516065817; 3600352804; 4094571909; 275423344;
    430227734; 506948616; 659060556; 883997877;
    958139571; 1322822218; 1537002063; 1747873779;
    1955562222; 2024104815; 2227730452; 2361852424;
    2428436474; 2756734187; 3204031479; 3329325298 ].

Definition initial_hash : list N :=
  [
    1779033703; 3144134277; 1013904242; 2773480762;
    1359893119; 2600822924; 528734635; 1541459225 ].

(** Padding: the byte 0x80, zero bytes up to 56 modulo 64, and the bit
    length as a 64-bit big-endian number. *)
Definition be_bytes (width : nat) (x : N) : list N :=
  map (fun i => N.land (N.shiftr x (8 * N.of_nat i)) 255) (rev (seq 0 width)).

Definition pad (msg : list N) : list N :=
  let len := List.length msg in
  let zeros := ((64 - ((len + 9) mod 64)) mod 64)%nat in
  msg ++ [128] ++ repeat 0 zeros ++ be_bytes 8 (8 * N.of_nat len).

Fixpoint words_of (fuel : nat) (bytes : list N) : list N :=
  match fuel, bytes with
  | S k, b0 :: b1 :: b2 :: b3 :: rest =>
      (N.shiftl b0 24 + N.shiftl b1 16 + N.shiftl b2 8 + b3) :: words_of k rest
  | _, _ => []
  end.

Fixpoint blocks_of (fuel : nat) (words : list N) : list (list N) :=
  match fuel with
  | O => []
  | S k =>
      match words with
      | [] => []
      | _ => firstn 16 words :: blocks_of k (skipn 16 words)
      end
  end.

(** The message schedule, newest word first. *)
Fixpoint extend (n : nat) (rev_w : list N) : list N :=
  match n with
  | O => rev_w
  | S k =>
      let w := add32 (add32 (small_sigma1 (nth 1 rev_w 0)) (nth 6 rev_w 0))
                     (add32 (small_sigma0 (nth 14 rev_w 0)) (nth 15 rev_w 0)) in
      extend k (w :: rev_w)
  end.

Definition schedule (block : list N) : list N := rev (extend 48 (rev block)).

Definition round (st : list N) (kw : N * N) : list N :=
  match st with
  | [a; b; c; d; e; f; g; h] =>
      let t1 := add32 (add32 (add32 h (big_sigma1 e)) (ch e f g)) (add32 (fst kw) (snd kw)) in
      let t2 := add32 (big_sigma0 a) (maj a b c) in
      [add32 t1 t2; a; b; c; add32 d t1; e; f; g]
  | _ => st
  end.

Definition compress (hash block : list N) : list N :=
  let out := fold_left round (combine round_constants (schedule block)) hash in
  map (fun p => add32 (fst p) (snd p)) (combine hash out).

Definition hex_digit (d : N) : ascii :=
  if d <? 10 then ascii_of_N (48 + d) else ascii_of_N (87 + d).

Definition hex_word (w : N) : string :=
  string_of_list_ascii
    (map (fun i => hex_digit (N.land (N.shiftr w (4 * N.of_nat i)) 15)) (rev (seq 0 8))).

Definition digest (msg : list N) : list N :=
  let bytes := pad msg in
  let n := List.length bytes in
  fold_left compress (blocks_of n (words_of n bytes)) initial_hash.

(** The argument is what [str.encode()] yields on ASCII text. *)
Definition hexdigest (s : string) : string :=
  String.concat "" (map hex_word (digest (map N_of_ascii (list_ascii_of_string s)))).

End Sha256.

(** ** Exceptions as values *)
Inductive Result (A : Type) : Type :=
  | Ok (value : A)
  | Raise (message : string).
Arguments Ok {A} value.
Arguments Raise {A} message.

(** ** [datetime]: the naive whole-second values the parser builds *)
Record datetime := mk_datetime {
  year : N; month : N; day : N;
  hour : N; minute : N; second : N
}.

Section DateTime.
Local Open Scope N_scope.

Definition is_leap (y : N) : bool :=
  ((y mod 4 =? 0) && negb (y mod 100 =? 0)) || (y mod 400 =? 0).

Definition days_in_month (y m : N) : N :=
  match m with
  | 2 => if is_leap y then 29 else 28
  | 4 | 6 | 9 | 11 => 30
  | _ => 31
  end.

(** The ranges the [datetime] constructor enforces. *)
Definition datetime_ok (d : datetime) : bool :=
  (1 <=? year d) && (year d <=? 9999) &&
  (1 <=? month d) && (month d <=? 12) &&
  (1 <=? day d) && (day d <=? days_in_month (year d) (month d)) &&
  (hour d <=? 23) && (minute d <=? 59) && (second d <=? 59).

Definition digit (n : N) : ascii := ascii_of_N (48 + n mod 10).

Definition pad2 (n : N) : string :=
  String (digit (n / 10)) (String (digit n) EmptyString).

Definition pad4 (n : N) : string :=
  String (digit (n / 1000)) (String (digit (n / 100)) (pad2 n)).

(** [datetime.isoformat()]: YYYY-MM-DDTHH:MM:SS. *)
Definition isoformat (d : datetime) : string :=
  pad4 (year d) +:+ "-" +:+ pad2 (month d) +:+ "-" +:+ pad2 (day d) +:+ "T" +:+
  pad2 (hour d) +:+ ":" +:+ pad2 (minute d) +:+ ":" +:+ pad2 (second d).

Definition datetime_key (d : datetime) : list N :=
  [year d; month d; day d; hour d; minute d; second d].

Fixpoint lex_ltb (a b : list N) : bool :=
  match a, b with
  | x :: a', y :: b' => if x <? y then true else if y <? x then false else lex_ltb a' b'
  | _, _ => false
  end.

(** [a < b] and [a <= b] on [datetime]. *)
Definition datetime_ltb (a b : datetime) : bool := lex_ltb (datetime_key a) (datetime_key b).
Definition datetime_leb (a b : datetime) : bool := negb (datetime_ltb b a).

(** [min(l)] and [max(l)] of a non-empty list [d :: l]. *)
Definition min_datetime (d : datetime) (l : list datetime) : datetime :=
  fold_left (fun m x => if datetime_ltb x m then x else m) l d.
Definition max_datetime (d : datetime) (l : list datetime) : datetime :=
  fold_left (fun m x => if datetime_ltb m x then x else m) l d.

(** [d - timedelta(days=1)] and [d + timedelta(days=1)]; both raise
    OverflowError outside the years 1..9999. *)
Definition overflow_message : string := "date value out of range".

Definition minus_one_day (d : datetime) : Result datetime :=
  if 1 <? day d then
    Ok (mk_datetime (year d) (month d) (day d - 1) (hour d) (minute d) (second d))
  else if 1 <? month d then
    Ok (mk_datetime (year d) (month d - 1) (days_in_month (year d) (month d - 1))
          (hour d) (minute d) (second d))
  else if 1 <? year d then
    Ok (mk_datetime (year d - 1) 12 31 (hour d) (minute d) (second d))
  else Raise overflow_message.

Definition plus_one_day (d : datetime) : Result datetime :=
  if day d <? days_in_month (year d) (month d) then
    Ok (mk_datetime (year d) (month d) (day d + 1) (hour d) (minute d) (second d))
  else if month d <? 12 then
    Ok (mk_datetime (year d) (month d + 1) 1 (hour d) (minute d) (second d))
  else if year d <? 9999 then
    Ok (mk_datetime (year d + 1) 1 1 (hour d) (minute d) (second d))
  else Raise overflow_message.

End DateTime.

(** [str(dt)]: as [isoformat] with a blank in place of the T. *)
Definition str_datetime (d : datetime) : string :=
  pad4 (year d) +:+ "-" +:+ pad2 (month d) +:+ "-" +:+ pad2 (day d) +:+ " " +:+
  pad2 (hour d) +:+ ":" +:+ pad2 (minute d) +:+ ":" +:+ pad2 (second d).

(** ** Configuration ([class Config]) *)
Module Config.
Definition BATCH_SIZE : nat := 10.
Definition RATE_LIMIT_DELAY : nat := 500.
Definition MAX_DESCRIPTION_LENGTH : nat := 8000.
Definition TIMEZONE : string := "Africa/Cairo".
Definition MAX_RETRIES : nat := 3.
Definition RETRY_DELAY : nat := 1000.
End Config.

(** [class EventType(Enum)] with its values. *)
Inductive EventType := DEFAULT | FOCUS_TIME | OUT_OF_OFFICE | WORKING_LOCATION.

Definition EventType_value (t : EventType) : string :=
  match t with
  | DEFAULT => "1"
  | FOCUS_TIME => "2"
  | OUT_OF_OFFICE => "4"
  | WORKING_LOCATION => "5"
  end.

(** ** Data exchanged with the calendar service *)

(** The body sent by [insert] and [update]. *)
Record GoogleEvent := mk_GoogleEvent {
  summary : string;
  start_dateTime : string;
  start_timeZone : string;
  end_dateTime : string;
  end_timeZone : string;
  body_description : option string;
  colorId : option string
}.

(** An entry as the service returns it: ['id'] is indexed directly by the
    program, the other keys are read with [.get]. *)
Record RawEvent := mk_RawEvent {
  entry_id : string;
  entry_status : option string;
  entry_summary : option string;
  entry_start_dateTime : option string
}.

(** What the successive [events().list] calls of one pagination loop
    return, call by call: a page with a nextPageToken and then the next
    call, a page without one, or an exception. *)
Inductive Listing :=
  | NextPage (items : list RawEvent) (rest : Listing)
  | LastPage (items : list RawEvent)
  | ListRaises (message : string).

(** Outcome of [int(float(text))]: a number, ValueError (not a number, or
    NaN) or OverflowError (an infinity). *)
Inductive IntFloat :=
  | IntOf (z : Z)
  | IntValueError
  | IntOverflowError.

(** ** What the program takes from its libraries and collaborators

    [bucket] tells whether the storage bucket could be set up, that is,
    whether [self.bucket] is truthy.
    [strptime_or_flexible] is the outcome of the format list and the flexible
    fallback of [DateTimeParser.parse] on a stripped, non-empty string: a
    datetime, no match, or the exception that leaves [parse].  The fallback
    catches ValueError, IndexError and AttributeError only, so the
    OverflowError that [datetime(...)] raises for a component beyond the
    range of a C int escapes.
    [fromisoformat_iso] is [datetime.fromisoformat(s).isoformat()];
    the four [events_*] functions are the calendar service as a state
    machine.  [events_list] gives the responses to the calls of one
    pagination loop, which the service ends after finitely many pages. *)
Class Environment := {
  cal_state : Type;
  bucket : bool;
  int_float : string -> IntFloat;
  strptime_or_flexible : string -> Result (option datetime);
  fromisoformat_iso : string -> option string;
  events_list : cal_state -> string -> string -> Listing * cal_state;
  events_get : cal_state -> string -> Result RawEvent * cal_state;
  events_insert : cal_state -> GoogleEvent -> Result string * cal_state;
  events_update : cal_state -> string -> GoogleEvent -> Result unit * cal_state
}.

(** ** [CalendarEvent] *)
Record CalendarEvent := mk_CalendarEvent {
  sheet_id : string;
  name : string;
  start_time : datetime;
  end_time : datetime;
  description : string;
  event_type : string;
  color : string;
  focus_time : bool;
  row_number : nat;
  unique_id : string
}.

(** [__post_init__]: an empty [unique_id] becomes sheet_id_start. *)
Definition post_init (e : CalendarEvent) : CalendarEvent :=
  if String.eqb (unique_id e) "" then
    mk_CalendarEvent (sheet_id e) (name e) (start_time e) (end_time e) (description e)
      (event_type e) (color e) (focus_time e) (row_number e)
      (sheet_id e +:+ "_" +:+ isoformat (start_time e))
  else e.

(** The list [is_valid] stores in [validation_errors].  Its two checks on a
    missing start or end never fire: a [datetime] is always truthy. *)
Definition validation_errors_of (e : CalendarEvent) : list string :=
  (if String.eqb (name e) "" || String.eqb (PyStr.strip (name e)) ""
   then ["Event name is empty"] else [])
  ++
  (if datetime_leb (end_time e) (start_time e)
   then ["End time (" +:+ str_datetime (end_time e) +:+ ") must be after start time ("
           +:+ str_datetime (start_time e) +:+ ")"]
   else []).

Definition is_valid (e : CalendarEvent) : bool :=
  match validation_errors_of e with [] => true | _ => false end.

Definition content_string (e : CalendarEvent) : string :=
  PyStr.lower (PyStr.strip (name e)) +:+ "|" +:+ isoformat (start_time e)
    +:+ "|" +:+ isoformat (end_time e).

Definition content_hash (e : CalendarEvent) : string :=
  Sha256.hexdigest (content_string e).

Definition content_key (e : CalendarEvent) : string :=
  PyStr.lower (PyStr.strip (name e)) +:+ "|" +:+ isoformat (start_time e).

(** The cleaning of a description in [to_google_event]. *)
Definition clean_description (d : string) : string :=
  let s := PyStr.sub_tags d in
  let s := PyStr.replace "&gt;" ">" (PyStr.replace "&lt;" "<" (PyStr.replace "&amp;" "&" s)) in
  let s := PyStr.replace "<br>" (String (ascii_of_nat 10) EmptyString)
             (PyStr.replace "&nbsp;" " " s) in
  PyStr.strip s.

Definition color_map (t : string) : option string :=
  if String.eqb t "DEFAULT" then Some (EventType_value DEFAULT)
  else if String.eqb t "FOCUS_TIME" then Some (EventType_value FOCUS_TIME)
  else if String.eqb t "OUT_OF_OFFICE" then Some (EventType_value OUT_OF_OFFICE)
  else if String.eqb t "WORKING_LOCATION" then Some (EventType_value WORKING_LOCATION)
  else None.

Section Payload.
Context {E : Environment}.

Definition to_google_event (e : CalendarEvent) : Result GoogleEvent :=
  let desc :=
    if String.eqb (description e) "" then None
    else
      let clean_desc := clean_description (description e) in
      if String.eqb clean_desc "" then None
      else Some (PyStr.take Config.MAX_DESCRIPTION_LENGTH clean_desc) in
  let build c :=
    mk_GoogleEvent (PyStr.strip (name e))
      (isoformat (start_time e)) Config.TIMEZONE
      (isoformat (end_time e)) Config.TIMEZONE desc c in
  let type_key :=
    if String.eqb (event_type e) "" then "DEFAULT"
    else PyStr.replace " " "_" (PyStr.upper (event_type e)) in
  match color_map type_key with
  | Some c => Ok (build (Some c))
  | None =>
      if String.eqb (color e) "" then Ok (build None)
      else
        match int_float (color e) with
        | IntOf z =>
            if ((1 <=? z) && (z <=? 11))%Z then Ok (build (Some (pretty z)))
            else Ok (build None)
        | IntValueError => Ok (build None)
        | IntOverflowError => Raise "cannot convert float infinity to integer"
        end
  end.

End Payload.

(** ** The SQLite tables of [_create_tables] *)

Record SyncedRow := mk_SyncedRow {
  sheet_event_id : string;
  unique_event_id : string;
  calendar_event_id : string;
  event_hash : string;
  event_name : string;
  row_start_time : string;
  row_end_time : string;
  sync_status : string
}.

(** An entry of the in-memory list [failed_events] of [sync_events]. *)
Record FailedEvent := mk_FailedEvent {
  fe_row : nat;
  fe_name : string;
  fe_start_time : string;
  fe_error : string
}.

Record SyncLogRow := mk_SyncLogRow {
  events_created : nat;
  events_updated : nat;
  events_skipped : nat;
  events_deleted : nat;
  log_errors : nat;
  log_trigger_source : string;
  log_status : string;
  error_details : option (list FailedEvent);
  log_total_processed : nat
}.

Record FailedRow := mk_FailedRow {
  failed_sheet_event_id : string;
  failed_unique_event_id : string;
  failed_event_name : string;
  failed_error_message : string;
  failed_row_number : nat
}.

Record ValidationRow := mk_ValidationRow {
  val_row_number : nat;
  val_event_name : string;
  val_validation_errors : string
}.

Record DuplicateRow := mk_DuplicateRow {
  dup_sheet_event_id : string;
  dup_occurrences : nat;
  dup_event_name : string;
  dup_first_occurrence : string;
  dup_last_occurrence : string
}.

Record Database := mk_Database {
  synced_events : list SyncedRow;
  sync_log : list SyncLogRow;
  failed_events : list FailedRow;
  validation_errors : list ValidationRow;
  duplicate_events : list DuplicateRow
}.

(** *** Statements on [synced_events]

    The table is the list of its rows in rowid order.  The schema declares
    UNIQUE(unique_event_id) and UNIQUE(calendar_event_id). *)
Module Sql.

Definition same_unique (uid : string) (r : SyncedRow) : bool :=
  String.eqb (unique_event_id r) uid.
Definition same_calendar (cid : string) (r : SyncedRow) : bool :=
  String.eqb (calendar_event_id r) cid.

(** SELECT ... WHERE unique_event_id = ?, then [fetchone]. *)
Definition select_unique (uid : string) (t : list SyncedRow) : option SyncedRow :=
  List.find (same_unique uid) t.

(** UPDATE ... SET event_hash, event_name, start_time, end_time
    WHERE unique_event_id = ? *)
Definition update_unique (uid hash nm st en : string) (t : list SyncedRow)
  : list SyncedRow :=
  map (fun r =>
         if same_unique uid r then
           mk_SyncedRow (sheet_event_id r) (unique_event_id r) (calendar_event_id r)
             hash nm st en (sync_status r)
         else r) t.

(** DELETE ... WHERE unique_event_id = ? *)
Definition delete_unique (uid : string) (t : list SyncedRow) : list SyncedRow :=
  List.filter (fun r => negb (same_unique uid r)) t.

(** DELETE ... WHERE calendar_event_id = ? *)
Definition delete_calendar (cid : string) (t : list SyncedRow) : list SyncedRow :=
  List.filter (fun r => negb (same_calendar cid r)) t.

(** DELETE FROM synced_events, and DROP TABLE followed by CREATE TABLE. *)
Definition delete_all (t : list SyncedRow) : list SyncedRow := [].

Definition conflicts (r x : SyncedRow) : bool :=
  same_unique (unique_event_id r) x || same_calendar (calendar_event_id r) x.

(** INSERT OR REPLACE: the rows that violate a UNIQUE constraint are
    deleted, then the new row is inserted. *)
Definition insert_or_replace (r : SyncedRow) (t : list SyncedRow) : list SyncedRow :=
  List.filter (fun x => negb (conflicts r x)) t ++ [r].

(** INSERT: sqlite3.IntegrityError on a UNIQUE violation, the table is
    left as it was.  The message names the violated column; when both
    constraints are violated at once SQLite reports the index it checks
    first, the one of the constraint declared last in the schema,
    UNIQUE(calendar_event_id). *)
Definition insert (r : SyncedRow) (t : list SyncedRow) : Result (list SyncedRow) :=
  if existsb (same_calendar (calendar_event_id r)) t then
    Raise "UNIQUE constraint failed: synced_events.calendar_event_id"
  else if existsb (same_unique (unique_event_id r)) t then
    Raise "UNIQUE constraint failed: synced_events.unique_event_id"
  else Ok (t ++ [r]).

End Sql.

(** The row both INSERT statements of [sync_events] write. *)
Definition synced_row_of (e : CalendarEvent) (calendar_id : string) : SyncedRow :=
  mk_SyncedRow (sheet_id e) (unique_id e) calendar_id (content_hash e) (name e)
    (isoformat (start_time e)) (isoformat (end_time e)) "active".

(** ** Observable actions, in the order they happen *)
Inductive Action :=
  | SheetsGet
  | CalendarList (time_min time_max : string)
  | CalendarGet (event_id : string)
  | CalendarInsert (body : GoogleEvent)
  | CalendarUpdate (event_id : string) (body : GoogleEvent)
  | Sleep (milliseconds : nat)
  | Commit
  | SaveDatabase.

Definition is_calendar_mutation (a : Action) : bool :=
  match a with
  | CalendarInsert _ | CalendarUpdate _ _ => true
  | _ => false
  end.

Definition is_calendar_call (a : Action) : bool :=
  match a with
  | CalendarList _ _ | CalendarGet _ | CalendarInsert _ | CalendarUpdate _ _ => true
  | _ => false
  end.

Definition is_calendar_insert (a : Action) : bool :=
  match a with
  | CalendarInsert _ => true
  | _ => false
  end.

(** ** [DateTimeParser.parse] and the sheet reader *)

Record ParsedDateTime := mk_ParsedDateTime {
  parsed_datetime : option datetime;
  parsed_is_valid : bool;
  error_message : string;
  original_string : string
}.

(** An entry of [invalid_events]; the keys 'start' and 'end' are present
    only for rows whose dates failed to parse. *)
Record InvalidEvent := mk_InvalidEvent {
  inv_row : nat;
  inv_name : string;
  inv_error : string;
  inv_start : option string;
  inv_end : option string
}.

(** [duplicate_tracking]: a dict in insertion order. *)
Fixpoint tally_incr (k : string) (t : list (string * nat)) : list (string * nat) :=
  match t with
  | [] => [(k, 1)]
  | (k', n) :: t' =>
      if String.eqb k' k then (k', S n) :: t' else (k', n) :: tally_incr k t'
  end.

Fixpoint tally_get (k : string) (t : list (string * nat)) : option nat :=
  match t with
  | [] => None
  | (k', n) :: t' => if String.eqb k' k then Some n else tally_get k t'
  end.

(** [event_data]: the headers mapped to the cells of the row, a later
    header of the same name overriding an earlier one. *)
Definition make_event_data (headers row : list string) : gmap string string :=
  foldl (fun d ih => <[ snd ih := default "" (row !! fst ih) ]> d) ∅
        (imap (fun i h => (i, h)) headers).

Definition dict_get (d : gmap string string) (k dflt : string) : string :=
  default dflt (d !! k).

Inductive RowOutcome :=
  | RowEmpty
  | RowMissingId (report : InvalidEvent)
  | RowUnparsed (event_id : string) (report : InvalidEvent)
  | RowRejected (event_id : string) (report : InvalidEvent)
  | RowAccepted (event_id : string) (event : CalendarEvent).

Section Reader.
Context {E : Environment}.

Definition parse (date_str : string) : Result ParsedDateTime :=
  if String.eqb date_str "" then
    Ok (mk_ParsedDateTime None false "Empty date string" date_str)
  else
    let original := PyStr.strip date_str in
    match strptime_or_flexible original with
    | Ok (Some dt) => Ok (mk_ParsedDateTime (Some dt) true "" original)
    | Ok None =>
        Ok (mk_ParsedDateTime None false ("Could not parse date: " +:+ original) original)
    | Raise m => Raise m
    end.

(** The body of the row loop of [read_sheet_events] once both date cells
    are parsed. *)
Definition build_row (event_data : gmap string string) (row_num : nat) (event_id : string)
  (start_parsed end_parsed : ParsedDateTime) : RowOutcome :=
        let start_cell := dict_get event_data "Start Date/Time" "" in
        let end_cell := dict_get event_data "End Date/Time" "" in
        match parsed_datetime start_parsed, parsed_datetime end_parsed with
        | Some s, Some en =>
            let event :=
              post_init
                (mk_CalendarEvent event_id
                   (dict_get event_data "Event Name" "Untitled Event") s en
                   (dict_get event_data "Description" "")
                   (dict_get event_data "Event Type" "DEFAULT")
                   (dict_get event_data "Color" "")
                   (String.eqb (PyStr.lower (dict_get event_data "Focus Time" "")) "yes")
                   row_num "") in
            if is_valid event then RowAccepted event_id event
            else RowRejected event_id
                   (mk_InvalidEvent row_num (name event)
                      (PyStr.join "; " (validation_errors_of event)) None None)
        | _, _ =>
            let error_msg :=
              (if parsed_is_valid start_parsed then []
               else ["Invalid start date: " +:+ error_message start_parsed])
              ++
              (if parsed_is_valid end_parsed then []
               else ["Invalid end date: " +:+ error_message end_parsed]) in
            RowUnparsed event_id
              (mk_InvalidEvent row_num (dict_get event_data "Event Name" "Unknown")
                 (PyStr.join "; " error_msg) (Some start_cell) (Some end_cell))
        end.

(** The body of the row loop of [read_sheet_events]; an exception of
    [parse] leaves it. *)
Definition read_row (headers : list string) (row_num : nat) (row : list string)
  : Result RowOutcome :=
  match row with
  | [] => Ok RowEmpty
  | _ =>
      let event_data := make_event_data headers row in
      let event_id := dict_get event_data "Event ID" "" in
      if String.eqb event_id "" then
        Ok (RowMissingId (mk_InvalidEvent row_num (dict_get event_data "Event Name" "Unknown")
                            "Missing Event ID" None None))
      else
        match parse (dict_get event_data "Start Date/Time" "") with
        | Raise m => Raise m
        | Ok start_parsed =>
            match parse (dict_get event_data "End Date/Time" "") with
            | Raise m => Raise m
            | Ok end_parsed =>
                Ok (build_row event_data row_num event_id start_parsed end_parsed)
            end
        end
  end.

(** The three accumulators of the row loop. *)
Record Reading := mk_Reading {
  valid_events : list CalendarEvent;
  invalid_events : list InvalidEvent;
  duplicate_tracking : list (string * nat)
}.

Definition empty_reading : Reading := mk_Reading [] [] [].

Definition record_row (acc : Reading) (outcome : RowOutcome) : Reading :=
  match outcome with
  | RowEmpty => acc
  | RowMissingId inv =>
      mk_Reading (valid_events acc) (invalid_events acc ++ [inv]) (duplicate_tracking acc)
  | RowUnparsed eid inv | RowRejected eid inv =>
      mk_Reading (valid_events acc) (invalid_events acc ++ [inv])
        (tally_incr eid (duplicate_tracking acc))
  | RowAccepted eid ev =>
      mk_Reading (valid_events acc ++ [ev]) (invalid_events acc)
        (tally_incr eid (duplicate_tracking acc))
  end.

(** [for row_num, row in enumerate(values[1:], start=2)]; an exception in
    a row ends the loop. *)
Fixpoint read_rows (headers : list string) (row_num : nat) (rows : list (list string))
  (acc : Reading) : Result Reading :=
  match rows with
  | [] => Ok acc
  | row :: rest =>
      match read_row headers row_num row with
      | Raise m => Raise m
      | Ok outcome => read_rows headers (S row_num) rest (record_row acc outcome)
      end
  end.

(** The rows written to duplicate_events: one per Event ID seen more than
    once that has at least one valid event. *)
Definition duplicate_rows (r : Reading) : list DuplicateRow :=
  omap (fun kv =>
          let '(event_id, count) := kv in
          if 1 <? count then
            match List.filter (fun e => String.eqb (sheet_id e) event_id) (valid_events r) with
            | [] => None
            | e :: rest =>
                let isos := map (fun x => isoformat (start_time x)) rest in
                Some (mk_DuplicateRow event_id count (name e)
                        (PyStr.min_str (isoformat (start_time e)) isos)
                        (PyStr.max_str (isoformat (start_time e)) isos))
            end
          else None)
       (duplicate_tracking r).

Definition validation_rows (r : Reading) : list ValidationRow :=
  map (fun inv => mk_ValidationRow (inv_row inv) (inv_name inv) (inv_error inv))
      (invalid_events r).

(** [read_sheet_events].  [sheet] is the outcome of the one call to the
    sheets service: the 'values' of the response, or an exception.  The
    [except Exception] of the method also catches what the row loop raises:
    the lists built so far are dropped and nothing is written. *)
Definition read_sheet_events (sheet : Result (list (list string))) (db : Database)
  : Reading * Database :=
  match sheet with
  | Raise _ => (empty_reading, db)
  | Ok values =>
      match values with
      | headers :: ((_ :: _) as rows) =>
          match read_rows headers 2 rows empty_reading with
          | Raise _ => (empty_reading, db)
          | Ok r =>
              (r, mk_Database (synced_events db) (sync_log db) (failed_events db)
                    (validation_errors db ++ validation_rows r)
                    (duplicate_events db ++ duplicate_rows r))
          end
      | _ => (empty_reading, db)
      end
  end.

End Reader.

(** ** The service: calendar snapshot, retry loop and reconciliation *)
Section Service.
Context {E : Environment}.

(** What the service object holds and acts on. *)
Record World := mk_World {
  calendar : cal_state;
  database : Database;
  trace : list Action
}.

(** The locals of the loop of [sync_events]. *)
Record Stats := mk_Stats {
  created : nat;
  updated : nat;
  skipped : nat;
  errors : nat;
  failed_list : list FailedEvent
}.

Definition act (a : Action) (w : World) : World :=
  mk_World (calendar w) (database w) (trace w ++ [a]).

Definition set_calendar (c : cal_state) (w : World) : World :=
  mk_World c (database w) (trace w).

Definition set_database (d : Database) (w : World) : World :=
  mk_World (calendar w) d (trace w).

Definition set_synced (t : list SyncedRow) (w : World) : World :=
  set_database
    (mk_Database t (sync_log (database w)) (failed_events (database w))
       (validation_errors (database w)) (duplicate_events (database w))) w.

Definition synced (w : World) : list SyncedRow := synced_events (database w).

(** *** [get_existing_calendar_events] *)

Definition index_entry (all_events : gmap string RawEvent) (event : RawEvent)
  : gmap string RawEvent :=
  if bool_decide (entry_status event = Some "cancelled") then all_events
  else
    let summary := PyStr.lower (PyStr.strip (default "" (entry_summary event))) in
    let start := default "" (entry_start_dateTime event) in
    if String.eqb summary "" || String.eqb start "" then all_events
    else
      match fromisoformat_iso (PyStr.replace "Z" "+00:00" start) with
      | Some iso => <[ summary +:+ "|" +:+ iso := event ]> all_events
      | None => <[ summary +:+ "|" +:+ start := event ]> all_events
      end.

(** [while True:] one call per page, the entries of the page indexed
    into [all_events]; an exception gives up the whole index. *)
Fixpoint index_listing (tmin tmax : string) (responses : Listing)
  (all_events : gmap string RawEvent) (w : World) : gmap string RawEvent * World :=
  let w := act (CalendarList tmin tmax) w in
  match responses with
  | NextPage items rest => index_listing tmin tmax rest (foldl index_entry all_events items) w
  | LastPage items => (foldl index_entry all_events items, w)
  | ListRaises _ => (∅, w)
  end.

Definition get_existing_calendar_events (time_min time_max : datetime) (w : World)
  : gmap string RawEvent * World :=
  let tmin := isoformat time_min +:+ "Z" in
  let tmax := isoformat time_max +:+ "Z" in
  let '(responses, c) := events_list (calendar w) tmin tmax in
  let '(all_events, w) := index_listing tmin tmax responses ∅ w in
  (all_events, set_calendar c w).

(** The pages of a listing that ends without an exception, and the number
    of calls a listing stands for. *)
Fixpoint listing_pages (responses : Listing) : option (list (list RawEvent)) :=
  match responses with
  | NextPage items rest => cons items <$> listing_pages rest
  | LastPage items => Some [items]
  | ListRaises _ => None
  end.

Fixpoint listing_calls (responses : Listing) : nat :=
  match responses with
  | NextPage _ rest => S (listing_calls rest)
  | LastPage _ | ListRaises _ => 1
  end.

(** *** [create_event_with_retry] *)

(** One pass through the [try] of the loop: build the body, call insert,
    read ['id'] of the response. *)
Definition attempt_insert (event : CalendarEvent) (w : World) : Result string * World :=
  match to_google_event event with
  | Raise m => (Raise m, w)
  | Ok body =>
      let w := act (CalendarInsert body) w in
      let '(r, c) := events_insert (calendar w) body in
      (r, set_calendar c w)
  end.

(** [for attempt in range(max_retries)], with [remaining] iterations left;
    the result [Ok None] is the [return None] after the loop. *)
Fixpoint retry_from (remaining attempt max_retries : nat) (event : CalendarEvent)
  (w : World) : Result (option string) * World :=
  match remaining with
  | O => (Ok None, w)
  | S k =>
      match attempt_insert event w with
      | (Ok id, w) => (Ok (Some id), w)
      | (Raise m, w) =>
          if attempt <? max_retries - 1
          then retry_from k (S attempt) max_retries event
                 (act (Sleep (Config.RETRY_DELAY * (attempt + 1))) w)
          else (Raise m, w)
      end
  end.

Definition create_event_with_retry (event : CalendarEvent) (max_retries : nat) (w : World)
  : Result (option string) * World :=
  retry_from max_retries 0 max_retries event w.

(** *** The loop body of [sync_events] *)

Definition add_created (s : Stats) : Stats :=
  mk_Stats (S (created s)) (updated s) (skipped s) (errors s) (failed_list s).
Definition add_updated (s : Stats) : Stats :=
  mk_Stats (created s) (S (updated s)) (skipped s) (errors s) (failed_list s).
Definition add_skipped (s : Stats) : Stats :=
  mk_Stats (created s) (updated s) (S (skipped s)) (errors s) (failed_list s).

(** Where the [if db_record:] block leaves the iteration: at [continue], or
    on the way to the snapshot lookup. *)
Inductive Existing := Continue | FallThrough.

(** The [if db_record:] block with its inner try/except. *)
Definition check_existing (event : CalendarEvent) (w : World) (s : Stats)
  : Existing * World * Stats :=
  match Sql.select_unique (unique_id event) (synced w) with
  | None => (FallThrough, w, s)
  | Some db_record =>
      let cal_id := calendar_event_id db_record in
      let stored_hash := event_hash db_record in
      let stale w := set_synced (Sql.delete_unique (unique_id event) (synced w)) w in
      let w := act (CalendarGet cal_id) w in
      match events_get (calendar w) cal_id with
      | (Raise _, c) => (FallThrough, stale (set_calendar c w), s)
      | (Ok cal_event, c) =>
          let w := set_calendar c w in
          if bool_decide (entry_status cal_event = Some "cancelled") then
            (FallThrough, w, s)
          else if String.eqb stored_hash (content_hash event) then
            (Continue, w, add_skipped s)
          else
            match to_google_event event with
            | Raise _ => (FallThrough, stale w, s)
            | Ok body =>
                let w := act (CalendarUpdate cal_id body) w in
                match events_update (calendar w) cal_id body with
                | (Raise _, c) => (FallThrough, stale (set_calendar c w), s)
                | (Ok _, c) =>
                    let w := set_calendar c w in
                    (Continue,
                     set_synced
                       (Sql.update_unique (unique_id event) (content_hash event)
                          (name event) (isoformat (start_time event))
                          (isoformat (end_time event)) (synced w)) w,
                     add_updated s)
                end
            end
      end
  end.

(** From the snapshot lookup to the end of the [try] block.  The call
    [create_event_with_retry(event)] takes the default [max_retries = 3]. *)
Definition link_or_create (existing_calendar_events : gmap string RawEvent)
  (event : CalendarEvent) (w : World) (s : Stats) : Result unit * World * Stats :=
  match existing_calendar_events !! content_key event with
  | Some existing =>
      (Ok tt,
       set_synced (Sql.insert_or_replace (synced_row_of event (entry_id existing)) (synced w)) w,
       add_skipped s)
  | None =>
      match create_event_with_retry event 3 w with
      | (Raise m, w) => (Raise m, w, s)
      | (Ok None, w) => (Ok tt, w, s)
      | (Ok (Some calendar_id), w) =>
          if String.eqb calendar_id "" then (Ok tt, w, s)
          else
            match Sql.insert (synced_row_of event calendar_id) (synced w) with
            | Raise m => (Raise m, w, s)
            | Ok t =>
                let w := set_synced t w in
                let s := add_created s in
                if created s mod Config.BATCH_SIZE =? 0
                then (Ok tt, act Commit (act (Sleep Config.RATE_LIMIT_DELAY) w), s)
                else (Ok tt, w, s)
            end
      end
  end.

(** The [except Exception as e:] handler of the loop. *)
Definition record_failure (event : CalendarEvent) (error_msg : string) (w : World) (s : Stats)
  : World * Stats :=
  let d := database w in
  (set_database
     (mk_Database (synced_events d) (sync_log d)
        (failed_events d ++
           [mk_FailedRow (sheet_id event) (unique_id event) (name event) error_msg
              (row_number event)])
        (validation_errors d) (duplicate_events d)) w,
   mk_Stats (created s) (updated s) (skipped s) (S (errors s))
     (failed_list s ++
        [mk_FailedEvent (row_number event) (name event) (isoformat (start_time event))
           error_msg])).

(** One iteration of [for event in sheet_events]. *)
Definition process_event (existing_calendar_events : gmap string RawEvent)
  (ws : World * Stats) (event : CalendarEvent) : World * Stats :=
  let '(w, s) := ws in
  match check_existing event w s with
  | (Continue, w, s) => (w, s)
  | (FallThrough, w, s) =>
      match link_or_create existing_calendar_events event w s with
      | (Ok _, w, s) => (w, s)
      | (Raise m, w, s) => record_failure event m w s
      end
  end.

(** *** [sync_events] *)

(** The dict returned when the loop has run. *)
Record SyncSummary := mk_SyncSummary {
  res_status : string;
  res_created : nat;
  res_updated : nat;
  res_skipped : nat;
  res_errors : nat;
  res_total_processed : nat;
  res_invalid_events : nat;
  res_duplicate_event_ids : nat;
  res_trigger_source : string;
  res_failed_events : option (list FailedEvent);
  res_validation_errors : option (list InvalidEvent)
}.

(** The two shapes of the returned dict. *)
Inductive Response :=
  | NoValidEvents (status message : string) (invalid_count : nat)
      (validation_sample : list InvalidEvent)
  | Synced (summary : SyncSummary).

Definition response_status (r : Response) : string :=
  match r with
  | NoValidEvents status _ _ _ => status
  | Synced summary => res_status summary
  end.

Definition zero_stats : Stats := mk_Stats 0 0 0 0 [].

Definition append_sync_log (row : SyncLogRow) (w : World) : World :=
  let d := database w in
  set_database
    (mk_Database (synced_events d) (sync_log d ++ [row]) (failed_events d)
       (validation_errors d) (duplicate_events d)) w.

(** [save_database]: with a bucket, a commit and the upload of the file
    (an exception of either is caught and logged); without one, nothing. *)
Definition save_database (w : World) : World :=
  if bucket then act SaveDatabase (act Commit w) else w.

(** [self.conn.commit(); self.save_database()] *)
Definition commit_and_save (w : World) : World := save_database (act Commit w).

Definition sample {A : Type} (n : nat) (l : list A) : option (list A) :=
  match l with
  | [] => None
  | _ => Some (firstn n l)
  end.

(** [for event in sheet_events: ...] *)
Definition sync_loop (existing_calendar_events : gmap string RawEvent)
  (sheet_events : list CalendarEvent) (w : World) : World * Stats :=
  foldl (process_event existing_calendar_events) (w, zero_stats) sheet_events.

(** The window [min(all_dates) - 1 day, max(all_dates) + 1 day]. *)
Definition time_window (sheet_events : list CalendarEvent) : Result (datetime * datetime) :=
  match map start_time sheet_events ++ map end_time sheet_events with
  | [] => Raise "min() arg is an empty sequence"
  | d :: rest =>
      match minus_one_day (min_datetime d rest) with
      | Raise m => Raise m
      | Ok time_min =>
          match plus_one_day (max_datetime d rest) with
          | Raise m => Raise m
          | Ok time_max => Ok (time_min, time_max)
          end
      end
  end.

Definition sync_events (trigger_source : string) (sheet : Result (list (list string)))
  (w : World) : Result Response * World :=
  let w := act SheetsGet w in
  let '(r, db) := read_sheet_events sheet (database w) in
  let w := set_database db w in
  let sheet_events := valid_events r in
  let invalid := invalid_events r in
  match sheet_events with
  | [] =>
      (Ok (NoValidEvents (match invalid with [] => "error" | _ => "partial" end)
             "No valid events in sheet" (List.length invalid) (firstn 10 invalid)),
       w)
  | _ =>
      match time_window sheet_events with
      | Raise m => (Raise m, w)
      | Ok (time_min, time_max) =>
          let '(existing_calendar_events, w) :=
            get_existing_calendar_events time_min time_max w in
          let duplicate_count :=
            List.length (List.filter (fun kv => 1 <? snd kv) (duplicate_tracking r)) in
          let '(w, s) := sync_loop existing_calendar_events sheet_events w in
          let w := commit_and_save w in
          let w :=
            append_sync_log
              (mk_SyncLogRow (created s) (updated s) (skipped s) 0 (errors s)
                 trigger_source "completed" (sample 10 (failed_list s))
                 (List.length sheet_events)) w in
          let w := commit_and_save w in
          (Ok (Synced
                 (mk_SyncSummary
                    (if errors s =? 0 then "success" else "partial")
                    (created s) (updated s) (skipped s) (errors s)
                    (List.length sheet_events) (List.length invalid) duplicate_count
                    trigger_source (sample 5 (failed_list s)) (sample 5 invalid))),
           w)
      end
  end.

(** [reset_sync_data]: both branches leave the five tables empty. *)
Definition reset_sync_data (force : bool) (w : World) : World :=
  commit_and_save (set_database (mk_Database (Sql.delete_all (synced w)) [] [] [] []) w).

End Service.

(** ** An in-memory calendar, used to run the service on concrete inputs

    Entries are kept in insertion order; [insert] hands out "evt0", "evt1",
    ... and fails while [insert_faults] is positive; a deleted entry would
    stay with status "cancelled", as the real service keeps it. *)
Module InMemory.

Record Cal := mk_Cal {
  entries : list RawEvent;
  next_id : nat;
  insert_faults : nat
}.

Definition empty : Cal := mk_Cal [] 0 0.

Definition has_id (id : string) (e : RawEvent) : bool := String.eqb (entry_id e) id.

Definition list_ (c : Cal) (time_min time_max : string) : Listing * Cal :=
  (LastPage (List.filter (fun e => negb (bool_decide (entry_status e = Some "cancelled")))
               (entries c)), c).

Definition get (c : Cal) (id : string) : Result RawEvent * Cal :=
  match List.find (has_id id) (entries c) with
  | Some e => (Ok e, c)
  | None => (Raise "404 Not Found", c)
  end.

Definition insert (c : Cal) (body : GoogleEvent) : Result string * Cal :=
  match insert_faults c with
  | S k => (Raise "503 Backend Error", mk_Cal (entries c) (next_id c) k)
  | O =>
      let id := "evt" +:+ pretty (next_id c) in
      (Ok id,
       mk_Cal (entries c ++
                 [mk_RawEvent id (Some "confirmed") (Some (summary body))
                    (Some (start_dateTime body))])
              (S (next_id c)) 0)
  end.

Definition update (c : Cal) (id : string) (body : GoogleEvent) : Result unit * Cal :=
  match List.find (has_id id) (entries c) with
  | Some _ =>
      (Ok tt,
       mk_Cal (map (fun e =>
                      if has_id id e
                      then mk_RawEvent id (entry_status e) (Some (summary body))
                             (Some (start_dateTime body))
                      else e) (entries c))
              (next_id c) (insert_faults c))
  | None => (Raise "404 Not Found", c)
  end.

(** The date cells used in the examples, with the value the first matching
    format of the parser gives them. *)
Definition example_dates : list (string * datetime) :=
  [ ("3/1/2025 9:00:00 AM", mk_datetime 2025 3 1 9 0 0);
    ("3/1/2025 9:15:00 AM", mk_datetime 2025 3 1 9 15 0);
    ("3/1/2025 9:30:00 AM", mk_datetime 2025 3 1 9 30 0);
    ("3/1/2025 10:00:00 AM", mk_datetime 2025 3 1 10 0 0);
    ("3/8/2025 9:00:00 AM", mk_datetime 2025 3 8 9 0 0);
    ("3/8/2025 9:15:00 AM", mk_datetime 2025 3 8 9 15 0) ].

(** A date cell whose year does not fit a C int: no format matches it and
    the fallback raises OverflowError. *)
Definition overflowing_date : string := "1/1/99999999999 10:00:00".

Definition parse_example (s : string) : Result (option datetime) :=
  if String.eqb s overflowing_date then Raise "signed integer is greater than maximum"
  else Ok (snd <$> List.find (fun p => String.eqb (fst p) s) example_dates).

(** [int(float(text))] on the texts used in the examples. *)
Definition int_float_example (s : string) : IntFloat :=
  if String.eqb s "7" then IntOf 7
  else if String.eqb s "inf" then IntOverflowError
  else IntValueError.

(** On the naive second-precision strings the program itself writes,
    parsing and printing again gives the string back. *)
Definition fromisoformat_example (s : string) : option string :=
  if String.length s =? 19 then Some s else None.

Definition env : Environment :=
  {| cal_state := Cal;
     bucket := true;
     int_float := int_float_example;
     strptime_or_flexible := parse_example;
     fromisoformat_iso := fromisoformat_example;
     events_list := list_;
     events_get := get;
     events_insert := insert;
     events_update := update |}.

Definition world (c : Cal) (t : list SyncedRow) : World (E := env) :=
  mk_World (E := env) c (mk_Database t [] [] [] []) [].

Definition headers : list string :=
  ["Event ID"; "Event Name"; "Start Date/Time"; "End Date/Time"; "Description";
   "Event Type"; "Color"; "Focus Time"].

End InMemory.

(** ** Vocabulary of the statements *)
Section Vocabulary.
Context {E : Environment}.

(** The tables other than synced_events. *)
Definition logs (w : World) :=
  (sync_log (database w), failed_events (database w),
   validation_errors (database w), duplicate_events (database w)).

(** What three failing attempts leave in the trace: the insert calls with
    the delay RETRY_DELAY x attempt number between consecutive ones. *)
Definition retry_schedule (body : GoogleEvent) : list Action :=
  [CalendarInsert body; Sleep (Config.RETRY_DELAY * 1);
   CalendarInsert body; Sleep (Config.RETRY_DELAY * 2);
   CalendarInsert body].

Definition unique_keys (t : list SyncedRow) : Prop :=
  NoDup (map unique_event_id t) ∧ NoDup (map calendar_event_id t).

(** Reads back the digits written by [pad2] and [pad4]. *)
Definition undigits (s : string) : N :=
  fold_left (fun acc c => (10 * acc + (N_of_ascii c - 48))%N) (list_ascii_of_string s) 0%N.

(** The Event ID a row contributes to the tally, if any. *)
Definition row_id (headers row : list string) : option string :=
  match row with
  | [] => None
  | _ =>
      let id := dict_get (make_event_data headers row) "Event ID" "" in
      if String.eqb id "" then None else Some id
  end.

Definition outcome_id (o : RowOutcome) : option string :=
  match o with
  | RowEmpty | RowMissingId _ => None
  | RowUnparsed id _ | RowRejected id _ | RowAccepted id _ => Some id
  end.

Definition tally_count (k : string) (t : list (string * nat)) : nat :=
  default 0 (tally_get k t).



End Vocabulary.

(** ** Concrete sheets and worlds on the in-memory calendar *)
Module Scenario.
Import InMemory.

Definition row (id nm st en : string) : list string := [id; nm; st; en].

Definition run (sheet : Result (list (list string))) (w : World (E := env))
  : Result Response * World (E := env) :=
  sync_events (E := env) "manual" sheet w.

Definition summary_of (out : Result Response * World (E := env)) : SyncSummary :=
  match out.1 with
  | Ok (Synced summary) => summary
  | _ => mk_SyncSummary "" 0 0 0 0 0 0 0 "" None None
  end.

(** An empty calendar and an empty store. *)
Definition fresh : World (E := env) := world empty [].

(** The end-to-end example: one row A1, Standup, 9:00 to 9:15. *)
Definition sheet_standup : Result (list (list string)) :=
  Ok [headers; row "A1" "Standup" "3/1/2025 9:00:00 AM" "3/1/2025 9:15:00 AM"].

(** The same row with a later end, with a later start, and with the name
    in another case. *)
Definition sheet_standup_later : Result (list (list string)) :=
  Ok [headers; row "A1" "Standup" "3/1/2025 9:00:00 AM" "3/1/2025 9:30:00 AM"].
Definition sheet_standup_moved : Result (list (list string)) :=
  Ok [headers; row "A1" "Standup" "3/1/2025 9:15:00 AM" "3/1/2025 9:30:00 AM"].
Definition sheet_standup_upper : Result (list (list string)) :=
  Ok [headers; row "A1" "  STANDUP " "3/1/2025 9:00:00 AM" "3/1/2025 9:15:00 AM"].

(** A row without Event ID. *)
Definition sheet_missing_id : Result (list (list string)) :=
  Ok [headers; row "" "Standup" "3/1/2025 9:00:00 AM" "3/1/2025 9:15:00 AM"].

(** Two rows with the same Event ID and the same start, named differently. *)
Definition sheet_same_key : Result (list (list string)) :=
  Ok [headers;
      row "A1" "Standup" "3/1/2025 9:00:00 AM" "3/1/2025 9:15:00 AM";
      row "A1" "Review" "3/1/2025 9:00:00 AM" "3/1/2025 9:15:00 AM"].

(** Two rows with the same Event ID a week apart. *)
Definition weekly_first : list string :=
  row "E1" "Standup" "3/1/2025 9:00:00 AM" "3/1/2025 9:15:00 AM".
Definition weekly_second : list string :=
  row "E1" "Standup" "3/8/2025 9:00:00 AM" "3/8/2025 9:15:00 AM".
Definition sheet_weekly : Result (list (list string)) :=
  Ok [headers; weekly_first; weekly_second].


(** The event the reader builds from the Standup row. *)
Definition standup : CalendarEvent :=
  mk_CalendarEvent "A1" "Standup" (mk_datetime 2025 3 1 9 0 0) (mk_datetime 2025 3 1 9 15 0)
    "" "" "" false 2 "A1_2025-03-01T09:00:00".

Definition standup_described : CalendarEvent :=
  mk_CalendarEvent "A1" "Standup" (mk_datetime 2025 3 1 9 0 0) (mk_datetime 2025 3 1 9 15 0)
    "Daily <b>sync</b>" "" "" false 2 "A1_2025-03-01T09:00:00".

Definition standup_later : CalendarEvent :=
  mk_CalendarEvent "A1" "Standup" (mk_datetime 2025 3 1 9 0 0) (mk_datetime 2025 3 1 9 30 0)
    "" "" "" false 2 "A1_2025-03-01T09:00:00".

Definition standup_with_break : CalendarEvent :=
  mk_CalendarEvent "A1" "Standup" (mk_datetime 2025 3 1 9 0 0) (mk_datetime 2025 3 1 9 15 0)
    "a<br>b" "" "" false 2 "A1_2025-03-01T09:00:00".

(** The world after the end-to-end example has run once. *)
Definition synced_once : World (E := env) := (run sheet_standup fresh).2.

(** The same store, with the linked entry evt0 cancelled in the calendar. *)
Definition cancelled_calendar : Cal :=
  mk_Cal [mk_RawEvent "evt0" (Some "cancelled") (Some "Standup")
            (Some "2025-03-01T09:00:00")] 1 0.
Definition entry_cancelled : World (E := env) :=
  world cancelled_calendar (synced synced_once).

(** A calendar that already holds an untracked Standup entry. *)
Definition untracked_entry : RawEvent :=
  mk_RawEvent "manual7" (Some "confirmed") (Some "Standup") (Some "2025-03-01T09:00:00").
Definition untracked_snapshot : gmap string RawEvent :=
  {[ "standup|2025-03-01T09:00:00" := untracked_entry ]}.

(** A calendar whose next three inserts fail. *)
Definition failing : World (E := env) := world (mk_Cal [] 0 3) [].

(** A store that links another identity to the id the calendar hands out
    next. *)
Definition other_row : SyncedRow :=
  mk_SyncedRow "B1" "B1_2025-03-01T09:00:00" "evt0" "" "Other" "2025-03-01T09:00:00"
    "2025-03-01T09:30:00" "active".
Definition id_taken : World (E := env) := world empty [other_row].

End Scenario.

(** * Further operations of the service *)

(** ** Vocabulary of the further statements *)
Section MoreVocabulary.
Context {E : Environment}.

(** A row the loop of the reader does not skip. *)
Definition is_data_row (row : list string) : bool :=
  match row with
  | [] => false
  | _ => true
  end.

(** Whether [parse] raises on a cell, and whether the row loop raises in a
    row: the row has an Event ID and one of its date cells makes [parse]
    raise. *)
Definition parse_raises (cell : string) : bool :=
  match parse cell with
  | Raise _ => true
  | Ok _ => false
  end.

Definition row_raises (headers row : list string) : bool :=
  match row_id headers row with
  | None => false
  | Some _ =>
      let cells := make_event_data headers row in
      parse_raises (dict_get cells "Start Date/Time" "")
      || parse_raises (dict_get cells "End Date/Time" "")
  end.

(** The number of pages a listing returns before a call fails. *)
Fixpoint listing_fetched (responses : Listing) : nat :=
  match responses with
  | NextPage _ rest => S (listing_fetched rest)
  | LastPage _ => 1
  | ListRaises _ => 0
  end.

(** The rows that carry the Event ID [k]. *)
Definition rows_with_id (headers : list string) (k : string) (rows : list (list string))
  : list (list string) :=
  List.filter (fun row => bool_decide (row_id headers row = Some k)) rows.

(** What holds of an event taken from row number [n] of the sheet. *)
Definition from_row (headers : list string) (rows : list (list string)) (e : CalendarEvent)
  : Prop :=
  is_valid e = true ∧
  PyStr.strip (name e) ≠ "" ∧
  datetime_ltb (start_time e) (end_time e) = true ∧
  sheet_id e ≠ "" ∧
  unique_id e = sheet_id e +:+ "_" +:+ isoformat (start_time e) ∧
  2 ≤ row_number e ∧
  ∃ row, rows !! (row_number e - 2) = Some row ∧ row_id headers row = Some (sheet_id e).

(** An entry the snapshot builder indexes, and the key it is indexed under
    (the two tests and the key of [index_entry]). *)
Definition indexable (ev : RawEvent) : bool :=
  negb (bool_decide (entry_status ev = Some "cancelled")) &&
  negb (String.eqb (PyStr.lower (PyStr.strip (default "" (entry_summary ev)))) "" ||
        String.eqb (default "" (entry_start_dateTime ev)) "").

Definition snapshot_key (ev : RawEvent) : string :=
  let start := default "" (entry_start_dateTime ev) in
  PyStr.lower (PyStr.strip (default "" (entry_summary ev))) +:+ "|" +:+
  match fromisoformat_iso (PyStr.replace "Z" "+00:00" start) with
  | Some iso => iso
  | None => start
  end.

(** The entries of the listing that are indexed under [k], in listing
    order. *)
Definition indexed_under (k : string) (pages : list (list RawEvent)) : list RawEvent :=
  List.filter (fun ev => indexable ev && String.eqb (snapshot_key ev) k) (concat pages).

(** A sheet response without data rows: an exception, or fewer than two
    rows. *)
Definition no_data (sheet : Result (list (list string))) : Prop :=
  match sheet with
  | Raise _ => True
  | Ok values => List.length values < 2
  end.

(** The number of events a run has counted in one of its four counters. *)
Definition counted (s : Stats) : nat := created s + updated s + skipped s + errors s.

(** What a successful create adds to the trace after the insert: the
    pause and commit of a full batch, when the count reaches one. *)
Definition batch_actions (created_so_far : nat) : list Action :=
  if S created_so_far mod Config.BATCH_SIZE =? 0
  then [Sleep Config.RATE_LIMIT_DELAY; Commit]
  else [].

(** The pause of the rate limiter, as opposed to the delays of the retry
    loop. *)
Definition is_batch_pause (a : Action) : bool :=
  match a with
  | Sleep n => n =? Config.RATE_LIMIT_DELAY
  | _ => false
  end.

Definition is_commit (a : Action) : bool :=
  match a with
  | Commit => true
  | _ => false
  end.

Definition count_actions (p : Action → bool) (t : list Action) : nat :=
  List.length (List.filter p t).

(** A stretch of trace with [k] rate-limiter pauses, each followed by its
    commit and no other commit. *)
Definition paced (k : nat) (t : list Action) : Prop :=
  count_actions is_batch_pause t = k ∧ count_actions is_commit t = k.

(** Strictly increasing along the list. *)
Definition increasing (l : list nat) : Prop :=
  ∀ i j a b, i < j → l !! i = Some a → l !! j = Some b → a < b.

End MoreVocabulary.

(** ** Further concrete inputs *)
Module MoreScenario.
Import InMemory Scenario.

(** A sheet whose header row has no Event ID column. *)
Definition headers_without_id : list string :=
  ["Event Name"; "Start Date/Time"; "End Date/Time"].
Definition row_without_id : list string :=
  ["Standup"; "3/1/2025 9:00:00 AM"; "3/1/2025 9:15:00 AM"].

(** A header row on its own. *)
Definition sheet_headers_only : Result (list (list string)) := Ok [headers].

(** The store after the example run, with a calendar that has lost the
    entry evt0. *)
Definition entry_lost : World (E := env) := world (mk_Cal [] 1 0) (synced synced_once).

(** A calendar the service may read and add to but not change: every
    update is refused. *)
Definition update_refused (c : Cal) (id : string) (body : GoogleEvent) : Result unit * Cal :=
  (Raise "403 Forbidden", c).

Definition read_only_env : Environment :=
  {| cal_state := Cal;
     bucket := true;
     int_float := int_float_example;
     strptime_or_flexible := parse_example;
     fromisoformat_iso := fromisoformat_example;
     events_list := list_;
     events_get := get;
     events_insert := insert;
     events_update := update_refused |}.

(** The store and calendar after the example run, on that calendar. *)
Definition entry_read_only : World (E := read_only_env) :=
  mk_World (E := read_only_env) (calendar synced_once)
    (mk_Database (synced synced_once) [] [] [] []) [].

(** An event on the last day a datetime can hold. *)
Definition last_day : CalendarEvent :=
  mk_CalendarEvent "Z1" "Last" (mk_datetime 9999 12 31 9 0 0) (mk_datetime 9999 12 31 9 15 0)
    "" "" "" false 2 "Z1_9999-12-31T09:00:00".

End MoreScenario.

(** * Properties *)

Arguments process_event : simpl never.
Arguments check_existing : simpl never.
Arguments link_or_create : simpl never.
Arguments create_event_with_retry : simpl never.
Arguments content_hash : simpl never.
Arguments to_google_event : simpl never.

(** ** Test vectors for the digest *)

Example sha256_abc :
  Sha256.hexdigest "abc" = "ba7816bf8f01cfea414140de5dae2223b00361a396177a9cb410ff61f20015ad".
Proof. vm_compute. reflexivity. Qed.

Example sha256_empty :
  Sha256.hexdigest "" = "e3b0c44298fc1c149afbf4c8996fb92427ae41e4649b934ca495991b7852b855".
Proof. vm_compute. reflexivity. Qed.

Example sha256_two_blocks :
  Sha256.hexdigest "abcdbcdecdefdefgefghfghighijhijkijkljklmklmnlmnomnopnopq"
  = "248d6a61d20638b8e5c026930c3e6039a33ce45964ff2167f6ecedd419db06c1".
Proof. vm_compute. reflexivity. Qed.

(** ** The text and date helpers on small inputs *)

Example sub_tags_nested : PyStr.sub_tags "x<a<b>c>y<>z<w" = "xc>y<>z<w".
Proof. reflexivity. Qed.

Example strip_lower : PyStr.lower (PyStr.strip "  Stand Up  ") = "stand up".
Proof. reflexivity. Qed.

Example replace_is_single_pass : PyStr.replace "&amp;" "&" "&amp;amp;" = "&amp;".
Proof. reflexivity. Qed.

Example clean_description_entities :
  clean_description " <p>Tom &amp; Jerry&nbsp;&lt;3</p> " = "Tom & Jerry <3".
Proof. reflexivity. Qed.

Example isoformat_pads : isoformat (mk_datetime 2025 3 1 9 5 0) = "2025-03-01T09:05:00".
Proof. reflexivity. Qed.

Example minus_one_day_leap :
  minus_one_day (mk_datetime 2024 3 1 0 0 0) = Ok (mk_datetime 2024 2 29 0 0 0).
Proof. reflexivity. Qed.

Example plus_one_day_overflow :
  plus_one_day (mk_datetime 9999 12 31 8 0 0) = Raise "date value out of range".
Proof. reflexivity. Qed.

Example validation_boundary :
  let at_nine := mk_datetime 2025 3 1 9 0 0 in
  let event en := mk_CalendarEvent "A1" "Standup" at_nine en "" "" "" false 2 "" in
  is_valid (event at_nine) = false ∧ is_valid (event (mk_datetime 2025 3 1 9 0 1)) = true.
Proof. split; reflexivity. Qed.

Section Properties.
Context {E : Environment}.
Implicit Types (w : World) (s : Stats) (e event : CalendarEvent).
Implicit Types (snapshot : gmap string RawEvent).

Local Opaque Sha256.hexdigest.

(** ** What the calendar-facing helpers leave alone *)

Lemma commit_and_save_database w : database (commit_and_save w) = database w.
Proof. unfold commit_and_save, save_database. by destruct bucket. Qed.

Lemma commit_and_save_calendar w : calendar (commit_and_save w) = calendar w.
Proof. unfold commit_and_save, save_database. by destruct bucket. Qed.

Lemma synced_after_log row w :
  synced (commit_and_save (append_sync_log row (commit_and_save w))) = synced w.
Proof.
  unfold synced. rewrite commit_and_save_database.
  cbn [append_sync_log set_database database synced_events].
  by rewrite commit_and_save_database.
Qed.

Lemma attempt_insert_database e w :
  database (attempt_insert e w).2 = database w.
Proof.
  unfold attempt_insert. destruct (to_google_event e); [|done].
  simpl. by destruct (events_insert _ _).
Qed.

Lemma retry_from_database n a m e w :
  database (retry_from n a m e w).2 = database w.
Proof.
  revert a w. induction n as [|n IH]; intros a w; simpl; [done|].
  pose proof (attempt_insert_database e w) as Hd.
  destruct (attempt_insert e w) as [[id|msg] w1]; simpl in *; [done|].
  destruct (a <? m - 1); [|done]. by rewrite IH.
Qed.

Lemma create_event_with_retry_database e m w :
  database (create_event_with_retry e m w).2 = database w.
Proof. apply retry_from_database. Qed.

Lemma check_existing_logs e w s :
  logs (check_existing e w s).1.2 = logs w.
Proof.
  unfold check_existing. repeat case_match; simplify_eq/=; done.
Qed.

Lemma check_existing_fall_through e w s w1 s1 :
  check_existing e w s = (FallThrough, w1, s1) → s1 = s.
Proof.
  unfold check_existing. repeat case_match; intros; simplify_eq/=; done.
Qed.

Lemma link_or_create_logs snapshot e w s :
  logs (link_or_create snapshot e w s).1.2 = logs w.
Proof.
  unfold link_or_create. destruct (snapshot !! content_key e); [done|].
  pose proof (create_event_with_retry_database e 3 w) as Hd.
  destruct (create_event_with_retry e 3 w) as [[[id|]|msg] w1]; simpl in *;
    unfold logs; repeat case_match; simplify_eq/=; by rewrite ?Hd.
Qed.

Lemma sync_log_process_event snapshot w s e :
  sync_log (database (process_event snapshot (w, s) e).1) = sync_log (database w).
Proof.
  unfold process_event.
  pose proof (check_existing_logs e w s) as H1.
  destruct (check_existing e w s) as [[[] w1] s1]; simpl in *.
  - by injection H1.
  - pose proof (link_or_create_logs snapshot e w1 s1) as H2.
    destruct (link_or_create snapshot e w1 s1) as [[[] w2] s2]; simpl in *;
      unfold logs in *; simplify_eq/=; congruence.
Qed.

Lemma sync_log_sync_loop snapshot evs w :
  sync_log (database (sync_loop snapshot evs w).1) = sync_log (database w).
Proof.
  unfold sync_loop. generalize zero_stats. revert w.
  induction evs as [|e evs IH]; intros w s; simpl; [done|].
  destruct (process_event snapshot (w, s) e) as [w1 s1] eqn:He.
  rewrite IH. by rewrite <- (sync_log_process_event snapshot w s e), He.
Qed.

Lemma read_sheet_events_tables sheet db :
  synced_events (read_sheet_events sheet db).2 = synced_events db ∧
  sync_log (read_sheet_events sheet db).2 = sync_log db ∧
  failed_events (read_sheet_events sheet db).2 = failed_events db.
Proof.
  unfold read_sheet_events. destruct sheet as [[|headers [|row rows]]|]; try done.
  by destruct (read_rows _ _ _ _).
Qed.

(** The pagination loop, in terms of the pages it has read and the number
    of calls it has made. *)
Lemma index_listing_world tmin tmax responses all_events w :
  index_listing tmin tmax responses all_events w
  = (match listing_pages responses with
     | Some pages => foldl (foldl index_entry) all_events pages
     | None => ∅
     end,
     mk_World (calendar w) (database w)
       (trace w ++ repeat (CalendarList tmin tmax) (listing_calls responses))).
Proof.
  revert all_events w.
  induction responses as [items rest IH|items|message]; intros all_events w; simpl.
  - rewrite IH. simpl. destruct (listing_pages rest); simpl; by rewrite <- app_assoc.
  - done.
  - done.
Qed.

Lemma get_existing_calendar_events_database tmin tmax w :
  database (get_existing_calendar_events tmin tmax w).2 = database w.
Proof.
  unfold get_existing_calendar_events.
  destruct (events_list _ _ _) as [responses c].
  rewrite (index_listing_world _ _ responses ∅ w).
  by destruct (listing_pages responses).
Qed.

Lemma get_existing_calendar_events_calendar tmin tmax w :
  calendar (get_existing_calendar_events tmin tmax w).2
  = (events_list (calendar w) (isoformat tmin +:+ "Z") (isoformat tmax +:+ "Z")).2.
Proof.
  unfold get_existing_calendar_events.
  destruct (events_list _ _ _) as [responses c].
  rewrite (index_listing_world _ _ responses ∅ w).
  by destruct (listing_pages responses).
Qed.

(** The shape of a completed run, used by the run-level statements. *)
Lemma sync_events_run trigger sheet w :
  let reading := (read_sheet_events sheet (database w)).1 in
  let w0 := set_database (read_sheet_events sheet (database w)).2 (act SheetsGet w) in
  ∀ e evs time_min time_max,
    valid_events reading = e :: evs →
    time_window (e :: evs) = Ok (time_min, time_max) →
    let listed := get_existing_calendar_events time_min time_max w0 in
    let looped := sync_loop listed.1 (e :: evs) listed.2 in
    let s := looped.2 in
    sync_events trigger sheet w =
      (Ok (Synced
             (mk_SyncSummary (if errors s =? 0 then "success" else "partial")
                (created s) (updated s) (skipped s) (errors s)
                (List.length (e :: evs)) (List.length (invalid_events reading))
                (List.length (List.filter (fun kv => 1 <? snd kv) (duplicate_tracking reading)))
                trigger (sample 5 (failed_list s)) (sample 5 (invalid_events reading)))),
       commit_and_save
         (append_sync_log
            (mk_SyncLogRow (created s) (updated s) (skipped s) 0 (errors s) trigger
               "completed" (sample 10 (failed_list s)) (List.length (e :: evs)))
            (commit_and_save looped.1))).
Proof.
  intros reading w0 e evs tmin tmax Hv Hw listed looped s.
  unfold sync_events.
  destruct (read_sheet_events sheet (database (act SheetsGet w))) as [r db] eqn:Hr.
  change (database (act SheetsGet w)) with (database w) in Hr.
  subst reading w0 listed looped s. rewrite Hr in *. simpl in Hv |- *.
  rewrite Hv, Hw.
  destruct (get_existing_calendar_events tmin tmax _) as [snap w1]. simpl.
  by destruct (sync_loop snap (e :: evs) w1) as [w2 s2].
Qed.

(** C10: a run that reaches the end of [sync_events] appends exactly one
    row to sync_log, whose status is the constant "completed" whatever the
    number of per-event errors it records, and which therefore never equals
    the "success" or "partial" returned to the caller; a run that returns
    early, or raises, appends nothing. *)
Theorem sync_log_status_is_completed trigger sheet w :
  let out := sync_events trigger sheet w in
  match out.1 with
  | Ok (Synced summary) =>
      ∃ row, sync_log (database out.2) = sync_log (database w) ++ [row] ∧
             log_status row = "completed" ∧
             log_errors row = res_errors summary ∧
             (res_status summary = "success" ∨ res_status summary = "partial") ∧
             res_status summary ≠ log_status row
  | _ => sync_log (database out.2) = sync_log (database w)
  end.
Proof.
  intros out. subst out.
  pose proof (read_sheet_events_tables sheet (database w)) as (_ & Hlog & _).
  destruct (valid_events (read_sheet_events sheet (database w)).1) as [|e evs] eqn:Hv.
  - unfold sync_events.
    change (database (act SheetsGet w)) with (database w).
    destruct (read_sheet_events sheet (database w)) as [r db]. simpl in *.
    by rewrite Hv.
  - destruct (time_window (e :: evs)) as [[tmin tmax]|msg] eqn:Hw.
    + rewrite (sync_events_run trigger sheet w e evs tmin tmax Hv Hw). simpl.
      eexists. split.
      { rewrite commit_and_save_database. cbn [append_sync_log set_database database sync_log].
        rewrite commit_and_save_database.
        rewrite sync_log_sync_loop, get_existing_calendar_events_database. simpl.
        by rewrite Hlog. }
      simpl. repeat split; destruct (errors _ =? 0); auto; discriminate.
    + unfold sync_events.
      change (database (act SheetsGet w)) with (database w).
      destruct (read_sheet_events sheet (database w)) as [r db]. simpl in *.
      by rewrite Hv, Hw.
Qed.

(** ** Errors and the failure log grow together *)

Lemma process_event_failures snapshot w s e :
  let out := process_event snapshot (w, s) e in
  ∃ rows, failed_events (database out.1) = failed_events (database w) ++ rows ∧
          errors out.2 = errors s + List.length rows.
Proof.
  unfold process_event.
  pose proof (check_existing_logs e w s) as H1.
  destruct (check_existing e w s) as [[[] w1] s1] eqn:Hc; simpl in *.
  - exists []. unfold logs in H1. simplify_eq/=. rewrite app_nil_r. split; [congruence|].
    revert Hc. unfold check_existing. repeat case_match; intros; simplify_eq/=; lia.
  - apply check_existing_fall_through in Hc as ->.
    pose proof (link_or_create_logs snapshot e w1 s) as H2.
    destruct (link_or_create snapshot e w1 s) as [[[] w2] s2] eqn:Hl; simpl in *;
      unfold logs in *; simplify_eq/=.
    + exists []. rewrite app_nil_r. split; [congruence|].
      revert Hl. unfold link_or_create. repeat case_match; intros; simplify_eq/=; lia.
    + eexists [_]. split; [f_equal; congruence|].
      revert Hl. unfold link_or_create. repeat case_match; intros; simplify_eq/=; lia.
Qed.

Lemma sync_loop_failures snapshot evs w :
  let out := sync_loop snapshot evs w in
  ∃ rows, failed_events (database out.1) = failed_events (database w) ++ rows ∧
          errors out.2 = List.length rows.
Proof.
  unfold sync_loop.
  assert (∀ w s, ∃ rows,
    failed_events (database (foldl (process_event snapshot) (w, s) evs).1)
      = failed_events (database w) ++ rows ∧
    errors (foldl (process_event snapshot) (w, s) evs).2 = errors s + List.length rows) as H.
  { induction evs as [|e evs IH]; intros w' s; simpl.
    - exists []. rewrite app_nil_r. split; [done|simpl; lia].
    - destruct (process_event_failures snapshot w' s e) as (r1 & H1 & H2).
      destruct (process_event snapshot (w', s) e) as [w1 s1]. simpl in *.
      destruct (IH w1 s1) as (r2 & H3 & H4).
      exists (r1 ++ r2). rewrite H3, H1, H4, H2, length_app, app_assoc. split; [done|lia]. }
  apply (H w zero_stats).
Qed.

(** C1 (amended): the status returned by [sync_events].  With no valid
    event the run returns before any calendar call, leaving calendar and
    synced_events as they were, and its status is "error" only when there is
    no invalid row either, "partial" otherwise.  With valid events (and a
    representable time window; otherwise the OverflowError leaves the
    function, again before any calendar call) one failure-log row is written
    per per-event error, and the status is "success" when there is none and
    "partial" when there is at least one. *)
Theorem sync_events_status trigger sheet w :
  let reading := (read_sheet_events sheet (database w)).1 in
  let out := sync_events trigger sheet w in
  match valid_events reading with
  | [] =>
      out.1 = Ok (NoValidEvents
                    (match invalid_events reading with [] => "error" | _ => "partial" end)
                    "No valid events in sheet" (List.length (invalid_events reading))
                    (firstn 10 (invalid_events reading))) ∧
      calendar out.2 = calendar w ∧
      trace out.2 = trace w ++ [SheetsGet] ∧
      synced out.2 = synced w
  | _ :: _ =>
      match time_window (valid_events reading) with
      | Raise m =>
          out.1 = Raise m ∧ calendar out.2 = calendar w ∧
          trace out.2 = trace w ++ [SheetsGet]
      | Ok _ =>
          ∃ summary rows,
            out.1 = Ok (Synced summary) ∧
            failed_events (database out.2) = failed_events (database w) ++ rows ∧
            res_errors summary = List.length rows ∧
            res_status summary = match rows with [] => "success" | _ => "partial" end
      end
  end.
Proof.
  intros reading out. subst reading out.
  pose proof (read_sheet_events_tables sheet (database w)) as (Hsy & _ & Hfl).
  destruct (valid_events (read_sheet_events sheet (database w)).1) as [|e evs] eqn:Hv.
  - unfold sync_events, synced.
    change (database (act SheetsGet w)) with (database w).
    destruct (read_sheet_events sheet (database w)) as [r db]. simpl in *.
    by rewrite Hv.
  - destruct (time_window (e :: evs)) as [[tmin tmax]|msg] eqn:Hw.
    + rewrite (sync_events_run trigger sheet w e evs tmin tmax Hv Hw). simpl.
      match goal with |- context [sync_loop ?sn ?l ?w0] =>
        destruct (sync_loop_failures sn l w0) as (rows & Hrows & Herr) end.
      eexists _, rows. split; [done|]. simpl. split.
      { rewrite commit_and_save_database.
        cbn [append_sync_log set_database database failed_events].
        rewrite commit_and_save_database.
        rewrite Hrows, get_existing_calendar_events_database. simpl. by rewrite Hfl. }
      split; [done|]. rewrite Herr. by destruct rows.
    + unfold sync_events.
      change (database (act SheetsGet w)) with (database w).
      destruct (read_sheet_events sheet (database w)) as [r db]. simpl in *.
      by rewrite Hv, Hw.
Qed.

(** ** Statements on synced_events *)

Lemma find_app_none {A} (f : A → bool) (l1 l2 : list A) :
  List.find f l1 = None → List.find f (l1 ++ l2) = List.find f l2.
Proof. induction l1 as [|x l1 IH]; simpl; [done|]. destruct (f x); [done|auto]. Qed.

Lemma find_filter_none {A} (f g : A → bool) (l : list A) :
  (∀ x, f x = true → g x = false) → List.find f (List.filter g l) = None.
Proof.
  intros Hfg. induction l as [|x l IH]; simpl; [done|].
  destruct (g x) eqn:Hg; [|done]. simpl.
  destruct (f x) eqn:Hf; [|done]. apply Hfg in Hf. congruence.
Qed.

Lemma same_unique_refl r : Sql.same_unique (unique_event_id r) r = true.
Proof. apply String.eqb_refl. Qed.

Lemma same_calendar_refl r : Sql.same_calendar (calendar_event_id r) r = true.
Proof. apply String.eqb_refl. Qed.

Lemma select_insert_or_replace r t :
  Sql.select_unique (unique_event_id r) (Sql.insert_or_replace r t) = Some r.
Proof.
  unfold Sql.select_unique, Sql.insert_or_replace.
  rewrite find_app_none.
  - simpl. by rewrite same_unique_refl.
  - apply find_filter_none. intros x Hx. unfold Sql.conflicts. by rewrite Hx.
Qed.

(** C7: an event without a SyncRecord whose contentKey is in the snapshot
    index is linked, not created: the loop body writes, by INSERT OR REPLACE,
    the record that maps its identityKey to the snapshot entry's id with the
    current contentHash, counts one skipped and nothing else, and makes no
    calendar call at all (so no insert). *)
Theorem relink_existing snapshot w s e existing :
  Sql.select_unique (unique_id e) (synced w) = None →
  snapshot !! content_key e = Some existing →
  let out := process_event snapshot (w, s) e in
  let record := synced_row_of e (entry_id existing) in
  synced out.1 = Sql.insert_or_replace record (synced w) ∧
  Sql.select_unique (unique_id e) (synced out.1) = Some record ∧
  unique_event_id record = unique_id e ∧
  calendar_event_id record = entry_id existing ∧
  event_hash record = content_hash e ∧
  skipped out.2 = S (skipped s) ∧
  created out.2 = created s ∧ updated out.2 = updated s ∧ errors out.2 = errors s ∧
  trace out.1 = trace w ∧ calendar out.1 = calendar w.
Proof.
  intros Hnone Hsnap out record. subst out.
  unfold process_event, check_existing. rewrite Hnone.
  unfold link_or_create. rewrite Hsnap. simpl.
  split; [done|]. split; [|done].
  change (unique_id e) with (unique_event_id record).
  apply select_insert_or_replace.
Qed.

(** ** The retry loop *)

Lemma check_existing_keeps e w s w1 s1 :
  check_existing e w s = (FallThrough, w1, s1) →
  s1 = s ∧ logs w1 = logs w ∧ (∀ r, r ∈ synced w1 → r ∈ synced w).
Proof.
  intros Hc. split; [by eapply check_existing_fall_through|].
  split; [by rewrite <- (check_existing_logs e w s), Hc|].
  revert Hc. unfold check_existing.
  repeat case_match; intros; simplify_eq/=; try done;
    match goal with H : _ ∈ _ |- _ =>
      unfold synced, Sql.delete_unique in H; simpl in H;
      apply list_elem_of_In, filter_In in H as [H _]; by apply list_elem_of_In end.
Qed.

Lemma retry_exhausted e w body m1 m2 m3 c1 c2 c3 :
  to_google_event e = Ok body →
  events_insert (calendar w) body = (Raise m1, c1) →
  events_insert c1 body = (Raise m2, c2) →
  events_insert c2 body = (Raise m3, c3) →
  create_event_with_retry e 3 w
  = (Raise m3, mk_World c3 (database w) (trace w ++ retry_schedule body)).
Proof.
  intros Hb H1 H2 H3.
  unfold create_event_with_retry. simpl. unfold attempt_insert.
  rewrite Hb. simpl. rewrite H1. simpl. rewrite H2. simpl. rewrite H3. simpl.
  unfold set_calendar, act. simpl. by rewrite <- !app_assoc.
Qed.

(** C8: [create_event_with_retry] calls insert at most three times, the
    k-th failed attempt being followed by a sleep of RETRY_DELAY x k before
    the next one; when all three attempts fail the third error leaves the
    function, and the loop body counts exactly one error and no created,
    appends to failed_events (and to the in-memory list) a row with the
    event's row number and that third message, and writes no row to
    synced_events. *)
Theorem create_retry_exhaustion :
  (∀ e w,
     let out := create_event_with_retry e 3 w in
     match to_google_event e with
     | Ok body =>
         ∃ k, 1 ≤ k ≤ 3 ∧
              trace out.2 = trace w ++ firstn (2 * k - 1) (retry_schedule body)
     | Raise m =>
         out.1 = Raise m ∧
         trace out.2 = trace w ++ [Sleep (Config.RETRY_DELAY * 1); Sleep (Config.RETRY_DELAY * 2)]
     end) ∧
  (∀ snapshot w s e w1 s1 body m1 m2 m3 c1 c2 c3,
     check_existing e w s = (FallThrough, w1, s1) →
     snapshot !! content_key e = None →
     to_google_event e = Ok body →
     events_insert (calendar w1) body = (Raise m1, c1) →
     events_insert c1 body = (Raise m2, c2) →
     events_insert c2 body = (Raise m3, c3) →
     let out := process_event snapshot (w, s) e in
     (create_event_with_retry e 3 w1).1 = Raise m3 ∧
     errors out.2 = S (errors s) ∧
     created out.2 = created s ∧ updated out.2 = updated s ∧ skipped out.2 = skipped s ∧
     failed_list out.2
       = failed_list s ++ [mk_FailedEvent (row_number e) (name e)
                             (isoformat (start_time e)) m3] ∧
     failed_events (database out.1)
       = failed_events (database w) ++
           [mk_FailedRow (sheet_id e) (unique_id e) (name e) m3 (row_number e)] ∧
     synced out.1 = synced w1 ∧
     (∀ r, r ∈ synced out.1 → r ∈ synced w) ∧
     trace out.1 = trace w1 ++ retry_schedule body ∧
     calendar out.1 = c3).
Proof.
  split.
  - intros e w out. subst out.
    unfold create_event_with_retry. simpl. unfold attempt_insert.
    destruct (to_google_event e) as [body|m]; simpl.
    + destruct (events_insert (calendar w) body) as [[id|m1] c1]; simpl.
      { exists 1. split; [lia|done]. }
      destruct (events_insert c1 body) as [[id|m2] c2]; simpl.
      { exists 2. split; [lia|]. by rewrite <- !app_assoc. }
      destruct (events_insert c2 body) as [[id|m3] c3]; simpl;
        exists 3; (split; [lia|]); by rewrite <- !app_assoc.
    + split; [done|]. by rewrite <- !app_assoc.
  - intros snapshot w s e w1 s1 body m1 m2 m3 c1 c2 c3 Hc Hsnap Hb H1 H2 H3 out.
    subst out.
    destruct (check_existing_keeps e w s w1 s1 Hc) as (-> & Hlogs & Hsub).
    unfold process_event. rewrite Hc. unfold link_or_create. rewrite Hsnap.
    rewrite (retry_exhausted e w1 body m1 m2 m3 c1 c2 c3 Hb H1 H2 H3). simpl.
    unfold logs in Hlogs. simplify_eq/=.
    repeat split; try done. by f_equal.
Qed.

(** ** The two UNIQUE constraints of synced_events *)

Lemma NoDup_map_filter {A B} (f : A → B) (g : A → bool) (l : list A) :
  NoDup (map f l) → NoDup (map f (List.filter g l)).
Proof.
  induction l as [|x l IH]; simpl; [done|].
  intros [Hx Hl]%NoDup_cons. destruct (g x); simpl; [|auto].
  apply NoDup_cons. split; [|auto].
  intros Hin. apply Hx.
  apply list_elem_of_In, in_map_iff in Hin as (y & <- & Hy).
  apply filter_In in Hy as [Hy _].
  apply list_elem_of_In, in_map_iff. eauto.
Qed.

Lemma NoDup_map_snoc {A B} (f : A → B) (l : list A) (x : A) :
  NoDup (map f l) → (∀ y, y ∈ l → f y ≠ f x) → NoDup (map f (l ++ [x])).
Proof.
  intros Hl Hx. rewrite map_app. simpl. apply NoDup_app. split; [done|].
  split; [|apply NoDup_singleton].
  intros b Hb ->%list_elem_of_singleton.
  apply list_elem_of_In, in_map_iff in Hb as (y & Hy & Hin).
  by apply (Hx y); [apply list_elem_of_In|].
Qed.

Lemma unique_keys_filter g t : unique_keys t → unique_keys (List.filter g t).
Proof. intros [H1 H2]. split; by apply NoDup_map_filter. Qed.

Lemma unique_keys_update uid hash nm st en t :
  unique_keys t → unique_keys (Sql.update_unique uid hash nm st en t).
Proof.
  unfold unique_keys, Sql.update_unique. rewrite !map_map.
  intros [H1 H2]. split.
  - erewrite map_ext; [exact H1|]. intros r. simpl. by destruct (Sql.same_unique uid r).
  - erewrite map_ext; [exact H2|]. intros r. simpl. by destruct (Sql.same_unique uid r).
Qed.

Lemma unique_keys_insert_or_replace r t :
  unique_keys t → unique_keys (Sql.insert_or_replace r t).
Proof.
  intros Ht. pose proof (unique_keys_filter (fun x => negb (Sql.conflicts r x)) t Ht) as [H1 H2].
  unfold Sql.insert_or_replace.
  split; apply NoDup_map_snoc; try done;
    intros y [_ Hy]%list_elem_of_In%filter_In Heq;
    apply negb_true_iff, orb_false_iff in Hy as [Hu Hc];
    unfold Sql.same_unique, Sql.same_calendar in *;
    rewrite Heq, String.eqb_refl in *; done.
Qed.

Lemma existsb_false_elem {A} (f : A → bool) (l : list A) x :
  existsb f l = false → x ∈ l → f x = false.
Proof.
  intros H Hin. destruct (f x) eqn:Hf; [|done].
  assert (existsb f l = true); [|congruence].
  apply existsb_exists. exists x. by split; [apply list_elem_of_In|].
Qed.

Lemma unique_keys_insert r t t' :
  unique_keys t → Sql.insert r t = Ok t' → t' = t ++ [r] ∧ unique_keys t'.
Proof.
  intros [H1 H2]. unfold Sql.insert.
  destruct (existsb (Sql.same_calendar _) t) eqn:Hc; [done|].
  destruct (existsb (Sql.same_unique _) t) eqn:Hu; [done|].
  intros [= <-]. split; [done|].
  split; apply NoDup_map_snoc; try done; intros y Hy Heq.
  - apply (existsb_false_elem _ _ y Hu) in Hy.
    unfold Sql.same_unique in Hy. by rewrite Heq, String.eqb_refl in Hy.
  - apply (existsb_false_elem _ _ y Hc) in Hy.
    unfold Sql.same_calendar in Hy. by rewrite Heq, String.eqb_refl in Hy.
Qed.

Lemma filter_none {A} (f : A → bool) (l : list A) :
  (∀ x, x ∈ l → f x = false) → List.filter f l = [].
Proof.
  induction l as [|x l IH]; simpl; [done|]. intros H.
  rewrite (H x) by left. apply IH. intros y Hy. apply H. by right.
Qed.

(** After INSERT OR REPLACE the new row is the only one with its
    calendar_event_id and the only one with its unique_event_id. *)
Lemma insert_or_replace_replaces r t :
  List.filter (Sql.same_calendar (calendar_event_id r)) (Sql.insert_or_replace r t) = [r] ∧
  List.filter (Sql.same_unique (unique_event_id r)) (Sql.insert_or_replace r t) = [r].
Proof.
  unfold Sql.insert_or_replace. rewrite !List.filter_app. simpl.
  rewrite same_calendar_refl, same_unique_refl.
  split; rewrite filter_none; try done;
    intros x [_ Hx]%list_elem_of_In%filter_In;
    apply negb_true_iff, orb_false_iff in Hx as [Hu Hc]; done.
Qed.

Lemma create_event_with_retry_synced e m w :
  synced (create_event_with_retry e m w).2 = synced w.
Proof. unfold synced. by rewrite create_event_with_retry_database. Qed.

Lemma process_event_unique_keys snapshot w s e :
  unique_keys (synced w) → unique_keys (synced (process_event snapshot (w, s) e).1).
Proof.
  intros Hw. unfold process_event.
  assert (unique_keys (synced (check_existing e w s).1.2)) as H1.
  { unfold check_existing. repeat case_match; simplify_eq/=; try done;
      unfold synced; simpl;
      first [by apply unique_keys_filter | by apply unique_keys_update]. }
  destruct (check_existing e w s) as [[[] w1] s1]; simpl in *; [done|].
  assert (unique_keys (synced (link_or_create snapshot e w1 s1).1.2)) as H2.
  { unfold link_or_create. destruct (snapshot !! content_key e).
    { by apply unique_keys_insert_or_replace. }
    pose proof (create_event_with_retry_synced e 3 w1) as Hd.
    destruct (create_event_with_retry e 3 w1) as [[[id|]|msg] w2]; simpl in *;
      rewrite <- Hd in H1; try done.
    destruct (String.eqb id ""); [done|].
    destruct (Sql.insert _ _) as [t'|m'] eqn:Hi; [|done].
    apply unique_keys_insert in Hi as [_ Hi]; [|done].
    by destruct (_ =? 0). }
  by destruct (link_or_create snapshot e w1 s1) as [[[] w2] s2].
Qed.

Lemma sync_loop_unique_keys snapshot evs w :
  unique_keys (synced w) → unique_keys (synced (sync_loop snapshot evs w).1).
Proof.
  unfold sync_loop. generalize zero_stats. revert w.
  induction evs as [|e evs IH]; intros w s Hw; simpl; [done|].
  pose proof (process_event_unique_keys snapshot w s e Hw) as H1.
  destruct (process_event snapshot (w, s) e) as [w1 s1]. by apply IH.
Qed.

Lemma sync_events_synced_cases trigger sheet w :
  synced (sync_events trigger sheet w).2 = synced w ∨
  ∃ snapshot evs w0, synced w0 = synced w ∧
    synced (sync_events trigger sheet w).2 = synced (sync_loop snapshot evs w0).1.
Proof.
  pose proof (read_sheet_events_tables sheet (database w)) as (Hsy & _ & _).
  destruct (valid_events (read_sheet_events sheet (database w)).1) as [|e evs] eqn:Hv.
  - left. unfold sync_events, synced.
    change (database (act SheetsGet w)) with (database w).
    destruct (read_sheet_events sheet (database w)) as [r db]. simpl in *.
    by rewrite Hv.
  - destruct (time_window (e :: evs)) as [[tmin tmax]|msg] eqn:Hw.
    + right. rewrite (sync_events_run trigger sheet w e evs tmin tmax Hv Hw).
      cbn [snd]. rewrite synced_after_log.
      eexists _, _, _. split; [|reflexivity].
      unfold synced. by rewrite get_existing_calendar_events_database.
    + left. unfold sync_events, synced.
      change (database (act SheetsGet w)) with (database w).
      destruct (read_sheet_events sheet (database w)) as [r db]. simpl in *.
      by rewrite Hv, Hw.
Qed.

Lemma existsb_orb {A} (f g : A → bool) (l : list A) :
  existsb (fun x => f x || g x) l = existsb f l || existsb g l.
Proof.
  induction l as [|x l IH]; simpl; [done|]. rewrite IH.
  destruct (f x), (g x), (existsb f l), (existsb g l); done.
Qed.

Lemma insert_cases r t :
  unique_keys t →
  match Sql.insert r t with
  | Ok t' => t' = t ++ [r] ∧ unique_keys t' ∧ existsb (Sql.conflicts r) t = false
  | Raise _ => existsb (Sql.conflicts r) t = true
  end.
Proof.
  intros Ht. pose proof (unique_keys_insert r t) as Hi.
  unfold Sql.conflicts. rewrite existsb_orb. unfold Sql.insert in *.
  destruct (existsb (Sql.same_unique _) t), (existsb (Sql.same_calendar _) t); try done.
  destruct (Hi _ Ht eq_refl) as [? ?]. done.
Qed.

(** ** [isoformat] and the identity key *)

Lemma bounded_check (P : N → bool) (bound : N) :
  forallb P (map N.of_nat (seq 0 (N.to_nat bound))) = true →
  ∀ n, (n < bound)%N → P n = true.
Proof.
  intros H n Hn. rewrite forallb_forall in H. apply H.
  apply in_map_iff. exists (N.to_nat n). split; [lia|].
  apply in_seq. lia.
Qed.

Lemma undigits_pad2 (n : N) : (n < 100)%N → undigits (pad2 n) = n.
Proof.
  intros Hn. apply N.eqb_eq.
  apply (bounded_check (fun n => undigits (pad2 n) =? n)%N 100); [|done].
  vm_compute. reflexivity.
Qed.

Lemma undigits_pad4 (n : N) : (n < 10000)%N → undigits (pad4 n) = n.
Proof.
  intros Hn. apply N.eqb_eq.
  apply (bounded_check (fun n => undigits (pad4 n) =? n)%N 10000); [|done].
  vm_compute. reflexivity.
Qed.

Lemma pad2_inj (a b : N) : (a < 100)%N → (b < 100)%N → pad2 a = pad2 b → a = b.
Proof. intros Ha Hb H. by rewrite <- (undigits_pad2 a), <- (undigits_pad2 b), H. Qed.

Lemma pad4_inj (a b : N) : (a < 10000)%N → (b < 10000)%N → pad4 a = pad4 b → a = b.
Proof. intros Ha Hb H. by rewrite <- (undigits_pad4 a), <- (undigits_pad4 b), H. Qed.

Lemma datetime_ok_bounds (d : datetime) :
  datetime_ok d = true →
  (year d < 10000 ∧ month d < 100 ∧ day d < 100 ∧
   hour d < 100 ∧ minute d < 100 ∧ second d < 100)%N.
Proof.
  unfold datetime_ok. rewrite !andb_true_iff, !N.leb_le.
  intros ((((((((? & ?) & ?) & ?) & ?) & Hd) & ?) & ?) & ?).
  assert (days_in_month (year d) (month d) ≤ 31)%N.
  { unfold days_in_month. repeat case_match; lia. }
  lia.
Qed.

Lemma isoformat_inj (a b : datetime) :
  datetime_ok a = true → datetime_ok b = true → isoformat a = isoformat b → a = b.
Proof.
  intros Ha%datetime_ok_bounds Hb%datetime_ok_bounds H.
  destruct a as [y1 mo1 d1 h1 mi1 s1], b as [y2 mo2 d2 h2 mi2 s2]. simpl in *.
  unfold isoformat in H. simpl in H.
  injection H as Hy1 Hy2 Hy3 Hy4 Hm1 Hm2 Hd1 Hd2 Hh1 Hh2 Hn1 Hn2 Hs1 Hs2.
  f_equal.
  - apply pad4_inj; [lia..|]. unfold pad4, pad2. congruence.
  - apply pad2_inj; [lia..|]. unfold pad2. congruence.
  - apply pad2_inj; [lia..|]. unfold pad2. congruence.
  - apply pad2_inj; [lia..|]. unfold pad2. congruence.
  - apply pad2_inj; [lia..|]. unfold pad2. congruence.
  - apply pad2_inj; [lia..|]. unfold pad2. congruence.
Qed.

Lemma append_inv_head (p a b : string) : p +:+ a = p +:+ b → a = b.
Proof. induction p as [|c p IH]; simpl; [done|]. intros [= H]. auto. Qed.

(** The key [__post_init__] derives determines the start time. *)
Lemma unique_id_inj (sid : string) (a b : datetime) :
  datetime_ok a = true → datetime_ok b = true →
  sid +:+ "_" +:+ isoformat a = sid +:+ "_" +:+ isoformat b → a = b.
Proof.
  intros Ha Hb H. do 2 apply append_inv_head in H.
  by apply isoformat_inj.
Qed.

(** ** Change detection *)

Lemma process_event_unchanged snapshot w s e record cal_event c :
  Sql.select_unique (unique_id e) (synced w) = Some record →
  events_get (calendar w) (calendar_event_id record) = (Ok cal_event, c) →
  entry_status cal_event ≠ Some "cancelled" →
  event_hash record = content_hash e →
  process_event snapshot (w, s) e
  = (mk_World c (database w) (trace w ++ [CalendarGet (calendar_event_id record)]),
     add_skipped s).
Proof.
  intros Hsel Hget Hst Hh.
  unfold process_event, check_existing. rewrite Hsel. simpl. rewrite Hget.
  rewrite bool_decide_eq_false_2 by done.
  by rewrite Hh, String.eqb_refl.
Qed.

Lemma process_event_changed snapshot w s e record cal_event c body c' :
  Sql.select_unique (unique_id e) (synced w) = Some record →
  events_get (calendar w) (calendar_event_id record) = (Ok cal_event, c) →
  entry_status cal_event ≠ Some "cancelled" →
  event_hash record ≠ content_hash e →
  to_google_event e = Ok body →
  events_update c (calendar_event_id record) body = (Ok tt, c') →
  process_event snapshot (w, s) e
  = (set_synced
       (Sql.update_unique (unique_id e) (content_hash e) (name e)
          (isoformat (start_time e)) (isoformat (end_time e)) (synced w))
       (mk_World c' (database w)
          (trace w ++ [CalendarGet (calendar_event_id record);
                       CalendarUpdate (calendar_event_id record) body])),
     add_updated s).
Proof.
  intros Hsel Hget Hst Hh Hb Hup.
  unfold process_event, check_existing. rewrite Hsel. simpl. rewrite Hget.
  rewrite bool_decide_eq_false_2 by done.
  apply String.eqb_neq in Hh. rewrite Hh, Hb. simpl. rewrite Hup.
  unfold set_synced, set_database, set_calendar, act, synced. simpl.
  by rewrite <- app_assoc.
Qed.

Lemma process_event_no_record snapshot w s e :
  Sql.select_unique (unique_id e) (synced w) = None →
  updated (process_event snapshot (w, s) e).2 = updated s.
Proof.
  intros Hsel. unfold process_event, check_existing. rewrite Hsel.
  unfold link_or_create, record_failure. repeat case_match; simplify_eq/=; done.
Qed.

(** ** What the content hash is computed from *)

Lemma isoformat_length (d : datetime) : String.length (isoformat d) = 19.
Proof. reflexivity. Qed.

Lemma length_append (a b : string) :
  String.length (a +:+ b) = String.length a + String.length b.
Proof.
  induction a as [|c a IH]; [done|].
  change (S (String.length (a +:+ b)) = S (String.length a + String.length b)).
  by rewrite IH.
Qed.

Lemma append_inv_suffix (a a' b b' : string) :
  String.length b = String.length b' → a +:+ b = a' +:+ b' → a = a' ∧ b = b'.
Proof.
  intros Hlen. revert a'. induction a as [|c a IH]; intros [|c' a'] H.
  - done.
  - change (b = String c' (a' +:+ b')) in H. subst b.
    cbn [String.length] in Hlen. rewrite length_append in Hlen. lia.
  - change (String c (a +:+ b) = b') in H. subst b'.
    cbn [String.length] in Hlen. rewrite length_append in Hlen. lia.
  - change (String c (a +:+ b) = String c' (a' +:+ b')) in H.
    injection H as -> H. by destruct (IH _ H) as [-> ->].
Qed.

(** The string that is hashed determines the normalised name and, for
    times within the datetime range, the start and the end. *)
Lemma content_string_inj e1 e2 :
  datetime_ok (start_time e1) = true → datetime_ok (start_time e2) = true →
  datetime_ok (end_time e1) = true → datetime_ok (end_time e2) = true →
  content_string e1 = content_string e2 →
  PyStr.lower (PyStr.strip (name e1)) = PyStr.lower (PyStr.strip (name e2)) ∧
  start_time e1 = start_time e2 ∧ end_time e1 = end_time e2.
Proof.
  intros Hs1 Hs2 He1 He2. unfold content_string. intros H.
  apply append_inv_suffix in H as [Hn H]; [|reflexivity].
  split; [done|].
  apply append_inv_head in H.
  apply append_inv_suffix in H as [Hs H]; [|reflexivity].
  apply append_inv_head in H.
  split; by apply isoformat_inj.
Qed.

(** C5 (amended): [content_hash] is the SHA-256 digest of
    lowercase(trim(name)) | start ISO | end ISO, so it depends on these
    three only, and this string determines the three.  For an event that has
    a SyncRecord whose calendar entry is fetched un-cancelled and whose
    stored hash is that of an earlier version of the event: a version with
    the same name, start and end (description, color, event type, source id
    and row number free) is skipped, with no update and no change to the
    table; a version with another end time, or with a name that differs
    after trimming and lower-casing, gives exactly one update when its body
    builds and the update call succeeds, unless SHA-256 collides on the two
    content strings.  A new start time gives a new identityKey, and an
    event whose identityKey has no record is never counted as updated. *)
Theorem content_hash_change_detection :
  (∀ e1 e2,
     PyStr.lower (PyStr.strip (name e1)) = PyStr.lower (PyStr.strip (name e2)) →
     isoformat (start_time e1) = isoformat (start_time e2) →
     isoformat (end_time e1) = isoformat (end_time e2) →
     content_hash e1 = content_hash e2) ∧
  (∀ snapshot w s e0 e record cal_event c,
     name e = name e0 → start_time e = start_time e0 → end_time e = end_time e0 →
     Sql.select_unique (unique_id e) (synced w) = Some record →
     event_hash record = content_hash e0 →
     events_get (calendar w) (calendar_event_id record) = (Ok cal_event, c) →
     entry_status cal_event ≠ Some "cancelled" →
     let out := process_event snapshot (w, s) e in
     out.2 = add_skipped s ∧ synced out.1 = synced w ∧
     trace out.1 = trace w ++ [CalendarGet (calendar_event_id record)]) ∧
  (∀ snapshot w s e0 e record cal_event c body c',
     Sql.select_unique (unique_id e) (synced w) = Some record →
     event_hash record = content_hash e0 →
     datetime_ok (start_time e) = true → datetime_ok (start_time e0) = true →
     datetime_ok (end_time e) = true → datetime_ok (end_time e0) = true →
     PyStr.lower (PyStr.strip (name e)) ≠ PyStr.lower (PyStr.strip (name e0)) ∨
     end_time e ≠ end_time e0 →
     (Sha256.hexdigest (content_string e) = Sha256.hexdigest (content_string e0) →
      content_string e = content_string e0) →
     events_get (calendar w) (calendar_event_id record) = (Ok cal_event, c) →
     entry_status cal_event ≠ Some "cancelled" →
     to_google_event e = Ok body →
     events_update c (calendar_event_id record) body = (Ok tt, c') →
     let out := process_event snapshot (w, s) e in
     event_hash record ≠ content_hash e ∧
     out.2 = add_updated s ∧
     trace out.1 = trace w ++ [CalendarGet (calendar_event_id record);
                               CalendarUpdate (calendar_event_id record) body] ∧
     synced out.1 = Sql.update_unique (unique_id e) (content_hash e) (name e)
                      (isoformat (start_time e)) (isoformat (end_time e)) (synced w)) ∧
  (∀ sid a b,
     datetime_ok a = true → datetime_ok b = true → a ≠ b →
     sid +:+ "_" +:+ isoformat a ≠ sid +:+ "_" +:+ isoformat b) ∧
  (∀ snapshot w s e,
     Sql.select_unique (unique_id e) (synced w) = None →
     updated (process_event snapshot (w, s) e).2 = updated s).
Proof.
  split.
  { intros e1 e2 Hn Hs He. unfold content_hash, content_string. by rewrite Hn, Hs, He. }
  split.
  { intros snapshot w s e0 e record cal_event c Hn Hs He Hsel Hh Hget Hst out. subst out.
    rewrite (process_event_unchanged snapshot w s e record cal_event c); try done.
    rewrite Hh. unfold content_hash, content_string. by rewrite Hn, Hs, He. }
  split.
  { intros snapshot w s e0 e record cal_event c body c' Hsel Hh Hs Hs0 He He0 Hdiff Hsha
      Hget Hst Hb Hup out. subst out.
    assert (event_hash record ≠ content_hash e) as Hne.
    { rewrite Hh. unfold content_hash. intros Heq. symmetry in Heq. apply Hsha in Heq.
      apply content_string_inj in Heq as (Hn & _ & Hen); try done.
      by destruct Hdiff. }
    split; [done|].
    by rewrite (process_event_changed snapshot w s e record cal_event c body c'). }
  split.
  { intros sid a b Ha Hb Hab Heq. by apply Hab, (unique_id_inj sid). }
  intros. by apply process_event_no_record.
Qed.

(** ** The sheet reader *)

Lemma read_row_ok headers n row o :
  read_row headers n row = Ok o →
  match row with
  | [] => o = RowEmpty
  | _ =>
      let cells := make_event_data headers row in
      let eid := dict_get cells "Event ID" "" in
      if String.eqb eid "" then
        o = RowMissingId (mk_InvalidEvent n (dict_get cells "Event Name" "Unknown")
                            "Missing Event ID" None None)
      else
        ∃ start_parsed end_parsed,
          parse (dict_get cells "Start Date/Time" "") = Ok start_parsed ∧
          parse (dict_get cells "End Date/Time" "") = Ok end_parsed ∧
          o = build_row cells n eid start_parsed end_parsed
  end.
Proof.
  unfold read_row. destruct row as [|c row]; [by intros [= <-]|]. cbv zeta.
  destruct (String.eqb _ ""); [by intros [= <-]|].
  destruct (parse (dict_get _ "Start Date/Time" "")) as [sp|]; [|done].
  destruct (parse (dict_get _ "End Date/Time" "")) as [ep|]; [|done].
  intros [= <-]. by exists sp, ep.
Qed.

Lemma outcome_id_build_row cells n eid sp ep :
  outcome_id (build_row cells n eid sp ep) = Some eid.
Proof. unfold build_row. by repeat case_match. Qed.

Lemma outcome_id_read_row headers n row o :
  read_row headers n row = Ok o → outcome_id o = row_id headers row.
Proof.
  intros H. apply read_row_ok in H. unfold row_id.
  destruct row as [|c row]; [by subst|]. cbv zeta in H.
  destruct (String.eqb _ ""); [by subst|].
  destruct H as (sp & ep & _ & _ & ->). apply outcome_id_build_row.
Qed.

Lemma build_row_accepted cells n eid sp ep eid' ev :
  build_row cells n eid sp ep = RowAccepted eid' ev →
  eid' = eid ∧ sheet_id ev = eid ∧ row_number ev = n ∧ is_valid ev = true ∧
  unique_id ev = eid +:+ "_" +:+ isoformat (start_time ev).
Proof.
  unfold build_row. repeat case_match; try done. intros [= <- <-].
  split; [done|]. split; [done|]. split; [done|]. split; done.
Qed.

Lemma read_row_accepted headers n row eid ev :
  read_row headers n row = Ok (RowAccepted eid ev) →
  sheet_id ev = eid ∧ row_number ev = n ∧ is_valid ev = true ∧
  unique_id ev = eid +:+ "_" +:+ isoformat (start_time ev).
Proof.
  intros H. apply read_row_ok in H.
  destruct row as [|c row]; [done|]. cbv zeta in H.
  destruct (String.eqb _ ""); [done|].
  destruct H as (sp & ep & _ & _ & H). symmetry in H.
  by apply build_row_accepted in H as (-> & ?).
Qed.




Lemma read_rows_cons headers n row rows acc r :
  read_rows headers n (row :: rows) acc = Ok r →
  ∃ o, read_row headers n row = Ok o ∧
       read_rows headers (S n) rows (record_row acc o) = Ok r.
Proof. simpl. destruct (read_row headers n row) as [o|]; [|done]. by exists o. Qed.



Lemma tally_get_incr k k' t :
  tally_get k (tally_incr k' t)
  = if String.eqb k' k then Some (S (tally_count k t)) else tally_get k t.
Proof.
  unfold tally_count. induction t as [|[k0 n0] t IH]; simpl.
  - destruct (String.eqb k' k) eqn:Hk; simpl; by rewrite ?Hk.
  - destruct (String.eqb k0 k') eqn:H0; simpl.
    + apply String.eqb_eq in H0 as ->. destruct (String.eqb k' k); done.
    + destruct (String.eqb k0 k) eqn:H1; simpl.
      * apply String.eqb_eq in H1 as ->.
        rewrite String.eqb_sym in H0. by rewrite H0.
      * apply IH.
Qed.

Lemma tally_record_row k acc o :
  tally_get k (duplicate_tracking (record_row acc o))
  = if bool_decide (outcome_id o = Some k)
    then Some (S (tally_count k (duplicate_tracking acc)))
    else tally_get k (duplicate_tracking acc).
Proof.
  destruct o; simpl; try done; rewrite tally_get_incr;
    (destruct (String.eqb _ k) eqn:Hk;
     [apply String.eqb_eq in Hk as ->; by rewrite bool_decide_eq_true_2
     |apply String.eqb_neq in Hk; rewrite bool_decide_eq_false_2; [done|congruence]]).
Qed.


Lemma select_unique_some uid t r :
  Sql.select_unique uid t = Some r → r ∈ t ∧ unique_event_id r = uid.
Proof.
  intros H. apply find_some in H as [Hin Hu].
  split; [by apply list_elem_of_In|]. by apply String.eqb_eq.
Qed.


(** ** Records of other identity keys are left alone *)

Lemma same_unique_other uid uid' r :
  uid' ≠ uid → Sql.same_unique uid r = true → Sql.same_unique uid' r = false.
Proof.
  unfold Sql.same_unique. intros Hne ->%String.eqb_eq.
  apply String.eqb_neq. congruence.
Qed.

Lemma select_delete_other uid uid' t :
  uid' ≠ uid → Sql.select_unique uid' (Sql.delete_unique uid t) = Sql.select_unique uid' t.
Proof.
  intros Hne. unfold Sql.select_unique, Sql.delete_unique.
  induction t as [|r t IH]; simpl; [done|].
  destruct (Sql.same_unique uid r) eqn:H1; simpl.
  - by rewrite (same_unique_other uid uid' r).
  - by rewrite IH.
Qed.

Lemma select_update_other uid uid' hash nm st en t :
  uid' ≠ uid →
  Sql.select_unique uid' (Sql.update_unique uid hash nm st en t) = Sql.select_unique uid' t.
Proof.
  intros Hne. unfold Sql.select_unique, Sql.update_unique.
  induction t as [|r t IH]; simpl; [done|].
  destruct (Sql.same_unique uid r) eqn:H1; simpl.
  - rewrite (same_unique_other uid uid' r) by done.
    replace (Sql.same_unique uid' _) with false; [done|].
    symmetry. unfold Sql.same_unique in *. simpl.
    apply String.eqb_eq in H1 as ->. apply String.eqb_neq. congruence.
  - by rewrite IH.
Qed.

Lemma select_snoc_other uid' r t :
  uid' ≠ unique_event_id r →
  Sql.select_unique uid' (t ++ [r]) = Sql.select_unique uid' t.
Proof.
  intros Hne. unfold Sql.select_unique.
  induction t as [|y t IH]; simpl.
  - by rewrite (same_unique_other (unique_event_id r) uid' r Hne (same_unique_refl r)).
  - by rewrite IH.
Qed.

Lemma check_existing_other e w s uid' :
  uid' ≠ unique_id e →
  Sql.select_unique uid' (synced (check_existing e w s).1.2) = Sql.select_unique uid' (synced w).
Proof.
  intros Hne. unfold check_existing.
  repeat case_match; simplify_eq/=; try done; unfold synced; simpl;
    first [by apply select_delete_other | by apply select_update_other].
Qed.

Lemma create_path_other snapshot e w s uid' :
  uid' ≠ unique_id e →
  snapshot !! content_key e = None →
  Sql.select_unique uid' (synced (link_or_create snapshot e w s).1.2)
  = Sql.select_unique uid' (synced w).
Proof.
  intros Hne Hsnap. unfold link_or_create. rewrite Hsnap.
  pose proof (create_event_with_retry_synced e 3 w) as Hd.
  destruct (create_event_with_retry e 3 w) as [[[id|]|msg] w1]; simpl in *;
    rewrite <- Hd; try done.
  destruct (String.eqb id ""); [done|].
  destruct (Sql.insert _ _) as [t'|m'] eqn:Hi; [|done].
  unfold Sql.insert in Hi. repeat case_match; simplify_eq/=.
  all: destruct (_ =? 0); unfold synced; simpl; by apply select_snoc_other.
Qed.

Lemma process_event_other snapshot e w s uid' :
  uid' ≠ unique_id e →
  snapshot !! content_key e = None →
  Sql.select_unique uid' (synced (process_event snapshot (w, s) e).1)
  = Sql.select_unique uid' (synced w).
Proof.
  intros Hne Hsnap. unfold process_event.
  pose proof (check_existing_other e w s uid' Hne) as H1.
  destruct (check_existing e w s) as [[[] w1] s1]; simpl in *; [done|].
  pose proof (create_path_other snapshot e w1 s1 uid' Hne Hsnap) as H2.
  destruct (link_or_create snapshot e w1 s1) as [[[] w2] s2];
    unfold record_failure, synced in *; simpl in *; congruence.
Qed.


(** ** Two runs in succession *)

Lemma read_sheet_events_reading sheet db db' :
  (read_sheet_events sheet db).1 = (read_sheet_events sheet db').1.
Proof. unfold read_sheet_events. by repeat case_match. Qed.

Lemma select_snoc_new r t :
  existsb (Sql.same_unique (unique_event_id r)) t = false →
  Sql.select_unique (unique_event_id r) (t ++ [r]) = Some r.
Proof.
  intros H. unfold Sql.select_unique. rewrite find_app_none.
  - simpl. by rewrite same_unique_refl.
  - destruct (List.find _ t) as [x|] eqn:Hf; [|done].
    apply find_some in Hf as [Hin Hx].
    by rewrite (existsb_false_elem _ _ x H) in Hx; [|apply list_elem_of_In].
Qed.

(** An iteration adds at most one to [created]; when it does, the event
    went through the create path and its record is the row just inserted. *)
Lemma process_event_created snapshot w s e :
  let out := process_event snapshot (w, s) e in
  created s ≤ created out.2 ≤ S (created s) ∧
  (created out.2 = S (created s) →
   snapshot !! content_key e = None ∧
   ∃ id, Sql.select_unique (unique_id e) (synced out.1) = Some (synced_row_of e id)).
Proof.
  unfold process_event.
  destruct (check_existing e w s) as [[[] w1] s1] eqn:Hc; simpl.
  - revert Hc. unfold check_existing. repeat case_match; intros; simplify_eq/=; lia.
  - apply check_existing_fall_through in Hc as ->.
    unfold link_or_create.
    destruct (snapshot !! content_key e) as [existing|]; simpl; [lia|].
    pose proof (create_event_with_retry_synced e 3 w1) as Hd.
    destruct (create_event_with_retry e 3 w1) as [[[id|]|msg] w2]; simpl in *; try lia.
    destruct (String.eqb id ""); simpl; [lia|].
    destruct (Sql.insert _ _) as [t'|m'] eqn:Hi; simpl; [|lia].
    assert (Sql.select_unique (unique_id e) t' = Some (synced_row_of e id)) as Hsel.
    { unfold Sql.insert in Hi. repeat case_match; simplify_eq/=.
      by apply (select_snoc_new (synced_row_of e id)). }
    destruct (_ =? 0); simpl; (split; [lia|]); intros _; (split; [done|]); by exists id.
Qed.

Lemma sync_loop_created_bound snapshot evs w s :
  created (foldl (process_event snapshot) (w, s) evs).2 ≤ created s + List.length evs.
Proof.
  revert w s. induction evs as [|e evs IH]; intros w s; simpl; [lia|].
  pose proof (process_event_created snapshot w s e) as [H1 _].
  destruct (process_event snapshot (w, s) e) as [w1 s1]. simpl in *.
  specialize (IH w1 s1). lia.
Qed.

(** A loop in which every event is created leaves, for each event with a
    key of its own, a record carrying its content hash. *)
Lemma sync_loop_all_created snapshot evs w s :
  let out := foldl (process_event snapshot) (w, s) evs in
  created out.2 = created s + List.length evs →
  (∀ uid, uid ∉ map unique_id evs →
     Sql.select_unique uid (synced out.1) = Sql.select_unique uid (synced w)) ∧
  (NoDup (map unique_id evs) →
   ∀ e, e ∈ evs →
     ∃ id, Sql.select_unique (unique_id e) (synced out.1) = Some (synced_row_of e id)).
Proof.
  revert w s. induction evs as [|e evs IH]; intros w s; simpl.
  { intros _. split; [done|]. by intros _ e ?%elem_of_nil. }
  pose proof (process_event_created snapshot w s e) as [H1 H2].
  pose proof (process_event_other snapshot e w s) as H3.
  destruct (process_event snapshot (w, s) e) as [w1 s1]. simpl in *.
  pose proof (sync_loop_created_bound snapshot evs w1 s1) as Hb.
  intros Hall.
  destruct H2 as [Hsnap [id Hid]]; [lia|].
  destruct (IH w1 s1) as [IH1 IH2]; [lia|].
  split.
  - intros uid Hnot. rewrite IH1.
    + apply H3; [|done]. intros ->. apply Hnot. by left.
    + intros Hin. apply Hnot. by right.
  - intros [Hx Hnd]%NoDup_cons e' [->|Hin]%elem_of_cons.
    + exists id. by rewrite IH1.
    + by apply IH2.
Qed.

(** A loop over events that all have a record with their content hash and
    a live calendar entry skips every one of them. *)
Lemma sync_loop_all_skipped snapshot evs w s :
  (∀ e, e ∈ evs →
     ∃ r cal_event,
       Sql.select_unique (unique_id e) (synced w) = Some r ∧
       event_hash r = content_hash e ∧
       events_get (calendar w) (calendar_event_id r) = (Ok cal_event, calendar w) ∧
       entry_status cal_event ≠ Some "cancelled") →
  let out := foldl (process_event snapshot) (w, s) evs in
  created out.2 = created s ∧ updated out.2 = updated s ∧
  skipped out.2 = skipped s + List.length evs ∧ errors out.2 = errors s ∧
  failed_list out.2 = failed_list s ∧
  synced out.1 = synced w ∧ calendar out.1 = calendar w.
Proof.
  revert w s. induction evs as [|e evs IH]; intros w s Hall; simpl.
  { repeat split; lia. }
  destruct (Hall e) as (r & ce & Hsel & Hh & Hget & Hst); [by left|].
  rewrite (process_event_unchanged snapshot w s e r ce (calendar w)) by done.
  match goal with |- context [foldl _ (?w1, ?s1) evs] =>
    destruct (IH w1 s1) as (-> & -> & -> & -> & -> & -> & ->) end.
  { intros e' He'. simpl. apply Hall. by right. }
  simpl. repeat split; lia.
Qed.

Lemma sync_events_synced_inv trigger sheet w summary w1 :
  sync_events trigger sheet w = (Ok (Synced summary), w1) →
  ∃ e evs time_min time_max,
    valid_events (read_sheet_events sheet (database w)).1 = e :: evs ∧
    time_window (e :: evs) = Ok (time_min, time_max).
Proof.
  intros Hrun.
  destruct (valid_events (read_sheet_events sheet (database w)).1) as [|e evs] eqn:Hv.
  { revert Hrun. unfold sync_events.
    change (database (act SheetsGet w)) with (database w).
    destruct (read_sheet_events sheet (database w)) as [r db]. simpl in *.
    by rewrite Hv. }
  destruct (time_window (e :: evs)) as [[tmin tmax]|msg] eqn:Hw.
  { by exists e, evs, tmin, tmax. }
  revert Hrun. unfold sync_events.
  change (database (act SheetsGet w)) with (database w).
  destruct (read_sheet_events sheet (database w)) as [r db]. simpl in *.
  by rewrite Hv, Hw.
Qed.

(** ** Rows that share an Event ID *)



(** C2 (amended): take valid source events with pairwise distinct
    identityKeys.  If one run of [sync_events] creates every one of them
    (created = number of valid events) and the sheet is unchanged, then,
    provided the calendar afterwards returns the entry linked to each event
    un-cancelled, the next run yields created = 0, updated = 0, errors = 0
    and skipped = number of valid events, and leaves synced_events as it
    was. *)
Theorem second_run_skips_all trigger1 trigger2 sheet w summary1 w1 :
  let evs := valid_events (read_sheet_events sheet (database w)).1 in
  NoDup (map unique_id evs) →
  sync_events trigger1 sheet w = (Ok (Synced summary1), w1) →
  res_created summary1 = List.length evs →
  (∀ time_min time_max e r,
     let c := (events_list (calendar w1) time_min time_max).2 in
     e ∈ evs →
     Sql.select_unique (unique_id e) (synced w1) = Some r →
     ∃ cal_event,
       events_get c (calendar_event_id r) = (Ok cal_event, c) ∧
       entry_status cal_event ≠ Some "cancelled") →
  ∃ summary2 w2,
    sync_events trigger2 sheet w1 = (Ok (Synced summary2), w2) ∧
    res_created summary2 = 0 ∧ res_updated summary2 = 0 ∧
    res_skipped summary2 = List.length evs ∧ res_errors summary2 = 0 ∧
    res_status summary2 = "success" ∧
    synced w2 = synced w1.
Proof.
  intros evs Hnd Hrun1 Hcreated Hlive.
  destruct (sync_events_synced_inv _ _ _ _ _ Hrun1) as (e & rest & tmin & tmax & Hv & Hw).
  subst evs. rewrite Hv in *.
  (* the first run *)
  rewrite (sync_events_run trigger1 sheet w e rest tmin tmax Hv Hw) in Hrun1.
  injection Hrun1 as Hsum1 Hw1.
  match type of Hw1 with context [sync_loop ?sn ?l ?wl] =>
    set (snap1 := sn) in *; set (w0 := wl) in * end.
  assert (created (sync_loop snap1 (e :: rest) w0).2 = List.length (e :: rest)) as Hc.
  { by rewrite <- Hcreated, <- Hsum1. }
  destruct (sync_loop_all_created snap1 (e :: rest) w0 zero_stats Hc) as [_ Hrec].
  assert (synced w1 = synced (sync_loop snap1 (e :: rest) w0).1) as Hsy1.
  { rewrite <- Hw1. apply synced_after_log. }
  (* the second run *)
  assert (valid_events (read_sheet_events sheet (database w1)).1 = e :: rest) as Hv2.
  { by rewrite (read_sheet_events_reading sheet _ (database w)). }
  rewrite (sync_events_run trigger2 sheet w1 e rest tmin tmax Hv2 Hw).
  match goal with |- context [sync_loop ?sn ?l ?wl] =>
    set (snap2 := sn); set (w2 := wl) end.
  assert (synced w2 = synced w1) as Hsy2.
  { subst w2. unfold synced. rewrite get_existing_calendar_events_database. simpl.
    apply read_sheet_events_tables. }
  assert (∃ a b, calendar w2 = (events_list (calendar w1) a b).2) as (a & b & Hcal2).
  { subst w2. exists (isoformat tmin +:+ "Z"), (isoformat tmax +:+ "Z").
    by rewrite get_existing_calendar_events_calendar. }
  destruct (sync_loop_all_skipped snap2 (e :: rest) w2 zero_stats)
    as (H1 & H2 & H3 & H4 & H5 & H6 & H7).
  { intros e' He'. destruct (Hrec Hnd e' He') as [id Hid].
    unfold sync_loop in Hsy1. rewrite <- Hsy1, <- Hsy2 in Hid.
    destruct (Hlive a b e' (synced_row_of e' id) He') as (ce & Hget & Hst).
    { by rewrite <- Hsy2. }
    exists (synced_row_of e' id), ce. rewrite Hcal2. done. }
  unfold sync_loop. eexists _, _. split; [reflexivity|].
  cbn [res_created res_updated res_skipped res_errors res_status].
  rewrite H1, H2, H3, H4. repeat split; try done.
  rewrite synced_after_log. by rewrite H6.
Qed.

(** ** The description in the payload *)

Lemma take_length n (s : string) : String.length (PyStr.take n s) ≤ n.
Proof.
  revert s. induction n as [|n IH]; intros [|c s]; simpl; try lia.
  specialize (IH s). lia.
Qed.

(** Whatever the description, the one sent to the calendar is the cleaned
    text cut to MAX_DESCRIPTION_LENGTH characters, and is never empty. *)
Lemma payload_description e body d :
  to_google_event e = Ok body →
  body_description body = Some d →
  d = PyStr.take Config.MAX_DESCRIPTION_LENGTH (clean_description (description e)) ∧
  String.length d ≤ Config.MAX_DESCRIPTION_LENGTH ∧
  clean_description (description e) ≠ "".
Proof.
  unfold to_google_event.
  pose proof (take_length Config.MAX_DESCRIPTION_LENGTH (clean_description (description e)))
    as Hlen.
  generalize dependent (PyStr.take Config.MAX_DESCRIPTION_LENGTH
                          (clean_description (description e))).
  intros cut Hlen.
  generalize dependent Config.MAX_DESCRIPTION_LENGTH. intros limit Hlen.
  destruct (String.eqb (description e) "").
  { repeat case_match; intros [= <-] [=]. }
  destruct (String.eqb (clean_description (description e)) "") eqn:Hc.
  { repeat case_match; intros [= <-] [=]. }
  apply String.eqb_neq in Hc.
  repeat case_match; intros [= <-] [= <-]; done.
Qed.

(** ** A stale link: fetch failure against a cancelled entry *)

(** When the fetch of the linked entry raises, the handler deletes the
    record before the snapshot lookup. *)
Lemma stale_record_fetch_fails e w s record msg c :
  Sql.select_unique (unique_id e) (synced w) = Some record →
  events_get (calendar w) (calendar_event_id record) = (Raise msg, c) →
  check_existing e w s
  = (FallThrough,
     set_synced (Sql.delete_unique (unique_id e) (synced w))
       (mk_World c (database w) (trace w ++ [CalendarGet (calendar_event_id record)])),
     s).
Proof.
  intros Hsel Hget. unfold check_existing. rewrite Hsel. simpl. by rewrite Hget.
Qed.

(** When the fetch returns a cancelled entry no exception is raised, so the
    handler does not run and the record stays. *)
Lemma stale_record_cancelled e w s record cal_event c :
  Sql.select_unique (unique_id e) (synced w) = Some record →
  events_get (calendar w) (calendar_event_id record) = (Ok cal_event, c) →
  entry_status cal_event = Some "cancelled" →
  check_existing e w s
  = (FallThrough,
     mk_World c (database w) (trace w ++ [CalendarGet (calendar_event_id record)]),
     s).
Proof.
  intros Hsel Hget Hst. unfold check_existing. rewrite Hsel. simpl. rewrite Hget.
  by rewrite bool_decide_eq_true_2.
Qed.

(** With the record still in place, the INSERT that follows a successful
    create violates UNIQUE(unique_event_id): the event is counted as an
    error although its calendar entry was created. *)
Lemma cancelled_entry_create_fails snapshot e w s record cal_event c body id c' :
  Sql.select_unique (unique_id e) (synced w) = Some record →
  events_get (calendar w) (calendar_event_id record) = (Ok cal_event, c) →
  entry_status cal_event = Some "cancelled" →
  snapshot !! content_key e = None →
  to_google_event e = Ok body →
  events_insert c body = (Ok id, c') →
  id ≠ "" →
  let out := process_event snapshot (w, s) e in
  errors out.2 = S (errors s) ∧ created out.2 = created s ∧
  synced out.1 = synced w ∧
  trace out.1 = trace w ++ [CalendarGet (calendar_event_id record); CalendarInsert body] ∧
  ∃ message,
    failed_events (database out.1)
    = failed_events (database w) ++
        [mk_FailedRow (sheet_id e) (unique_id e) (name e) message (row_number e)] ∧
    (existsb (Sql.same_calendar id) (synced w) = false →
     message = "UNIQUE constraint failed: synced_events.unique_event_id").
Proof.
  intros Hsel Hget Hst Hsnap Hb Hins Hid out. subst out.
  unfold process_event.
  rewrite (stale_record_cancelled e w s record cal_event c) by done.
  unfold link_or_create. rewrite Hsnap.
  unfold create_event_with_retry. simpl. unfold attempt_insert. rewrite Hb. simpl.
  rewrite Hins. simpl.
  apply String.eqb_neq in Hid. rewrite Hid.
  unfold Sql.insert.
  cbn [unique_event_id calendar_event_id synced_row_of].
  change (synced (set_calendar c' (act (CalendarInsert body) _))) with (synced w).
  assert (existsb (Sql.same_unique (unique_id e)) (synced w) = true) as ->.
  { apply existsb_exists. exists record. apply find_some in Hsel as [Hin Hu]. by split. }
  destruct (existsb (Sql.same_calendar id) (synced w)) eqn:Hc;
    simpl; (repeat split; try done; [by rewrite <- app_assoc|]); by eexists.
Qed.

(** ** The uniqueness constraints of synced_events *)

(** The INSERT of the create path on a calendar id the table already
    holds: the statement raises, and the event is counted as an error
    although its calendar entry has been created. *)
Lemma rejected_insert_is_error snapshot e w s body id c' :
  Sql.select_unique (unique_id e) (synced w) = None →
  snapshot !! content_key e = None →
  to_google_event e = Ok body →
  events_insert (calendar w) body = (Ok id, c') →
  id ≠ "" →
  existsb (Sql.same_calendar id) (synced w) = true →
  let out := process_event snapshot (w, s) e in
  errors out.2 = S (errors s) ∧ created out.2 = created s ∧
  synced out.1 = synced w ∧
  trace out.1 = trace w ++ [CalendarInsert body] ∧
  failed_events (database out.1)
  = failed_events (database w) ++
      [mk_FailedRow (sheet_id e) (unique_id e) (name e)
         "UNIQUE constraint failed: synced_events.calendar_event_id" (row_number e)].
Proof.
  intros Hsel Hsnap Hb Hins Hid Hc out. subst out.
  unfold process_event, check_existing. rewrite Hsel.
  unfold link_or_create. rewrite Hsnap.
  unfold create_event_with_retry. cbn [retry_from]. unfold attempt_insert. rewrite Hb.
  cbn [act calendar]. rewrite Hins.
  apply String.eqb_neq in Hid. rewrite Hid.
  unfold Sql.insert. cbn [unique_event_id calendar_event_id synced_row_of].
  change (synced (set_calendar c' _)) with (synced w). rewrite Hc.
  by destruct w.
Qed.

(** C9 (amended): every statement the service executes on synced_events,
    each iteration of the loop and a whole run of [sync_events] preserve the
    two uniqueness invariants (unique_event_id unique, calendar_event_id
    unique).  The linking INSERT OR REPLACE replaces: afterwards the new row
    is the only one with its calendar_event_id (and with its
    unique_event_id).  The plain INSERT of the create path does not replace:
    it appends the row when neither key is present, and otherwise raises and
    leaves the table as it was, so no second row appears either way; the
    event whose INSERT is rejected, for a calendar id the table already
    holds, is counted as an error, with a failure-log row carrying the
    integrity error, and not as created. *)
Theorem synced_events_uniqueness (t : list SyncedRow) :
  unique_keys t →
  (∀ uid hash nm st en, unique_keys (Sql.update_unique uid hash nm st en t)) ∧
  (∀ uid, unique_keys (Sql.delete_unique uid t)) ∧
  (∀ cid, unique_keys (Sql.delete_calendar cid t)) ∧
  unique_keys (Sql.delete_all t) ∧
  (∀ r, unique_keys (Sql.insert_or_replace r t) ∧
        List.filter (Sql.same_calendar (calendar_event_id r)) (Sql.insert_or_replace r t) = [r] ∧
        List.filter (Sql.same_unique (unique_event_id r)) (Sql.insert_or_replace r t) = [r]) ∧
  (∀ r, match Sql.insert r t with
        | Ok t' =>
            t' = t ++ [r] ∧ unique_keys t' ∧
            existsb (Sql.conflicts r) t = false
        | Raise _ => existsb (Sql.conflicts r) t = true
        end) ∧
  (∀ snapshot w s e,
     synced w = t → unique_keys (synced (process_event snapshot (w, s) e).1)) ∧
  (∀ trigger sheet w,
     synced w = t → unique_keys (synced (sync_events trigger sheet w).2)) ∧
  (∀ snapshot w s e body id c',
     synced w = t →
     Sql.select_unique (unique_id e) t = None →
     snapshot !! content_key e = None →
     to_google_event e = Ok body →
     events_insert (calendar w) body = (Ok id, c') →
     id ≠ "" →
     existsb (Sql.same_calendar id) t = true →
     let out := process_event snapshot (w, s) e in
     Sql.insert (synced_row_of e id) t
     = Raise "UNIQUE constraint failed: synced_events.calendar_event_id" ∧
     errors out.2 = S (errors s) ∧ created out.2 = created s ∧
     synced out.1 = t ∧
     failed_events (database out.1)
     = failed_events (database w) ++
         [mk_FailedRow (sheet_id e) (unique_id e) (name e)
            "UNIQUE constraint failed: synced_events.calendar_event_id" (row_number e)]) ∧
  (∀ snapshot w s e record cal_event c body id c',
     synced w = t →
     Sql.select_unique (unique_id e) t = Some record →
     events_get (calendar w) (calendar_event_id record) = (Ok cal_event, c) →
     entry_status cal_event = Some "cancelled" →
     snapshot !! content_key e = None →
     to_google_event e = Ok body →
     events_insert c body = (Ok id, c') →
     id ≠ "" →
     let out := process_event snapshot (w, s) e in
     (∃ message, Sql.insert (synced_row_of e id) t = Raise message) ∧
     errors out.2 = S (errors s) ∧ created out.2 = created s ∧
     synced out.1 = t ∧
     ∃ message,
       failed_events (database out.1)
       = failed_events (database w) ++
           [mk_FailedRow (sheet_id e) (unique_id e) (name e) message (row_number e)]).
Proof.
  intros Ht.
  split; [intros; by apply unique_keys_update|].
  split; [intros; by apply unique_keys_filter|].
  split; [intros; by apply unique_keys_filter|].
  split; [split; apply NoDup_nil_2|].
  split.
  { intros r. split; [by apply unique_keys_insert_or_replace|].
    apply insert_or_replace_replaces. }
  split; [intros r; by apply insert_cases|].
  split.
  { intros snapshot w s e <-. by apply process_event_unique_keys. }
  split.
  { intros trigger sheet w <-.
    destruct (sync_events_synced_cases trigger sheet w) as [->|(sn & evs & w0 & H0 & ->)];
      [done|].
    apply sync_loop_unique_keys. by rewrite H0. }
  split.
  { intros snapshot w s e body id c' <- Hsel Hsnap Hb Hins Hid Hc out. subst out.
    split.
    { unfold Sql.insert. cbn [calendar_event_id synced_row_of]. by rewrite Hc. }
    by destruct (rejected_insert_is_error snapshot e w s body id c') as (? & ? & ? & ? & ?). }
  intros snapshot w s e record cal_event c body id c' <- Hsel Hget Hst Hsnap Hb Hins Hid out.
  subst out. split.
  { pose proof (insert_cases (synced_row_of e id) (synced w) Ht) as Hi.
    destruct (Sql.insert _ _) as [t'|message]; [|by exists message].
    destruct Hi as (_ & _ & Hno). exfalso.
    apply select_unique_some in Hsel as [Hin Hu].
    pose proof (existsb_false_elem _ _ record Hno Hin) as Hrec.
    unfold Sql.conflicts, Sql.same_unique in Hrec. cbn [unique_event_id synced_row_of] in Hrec.
    rewrite Hu, String.eqb_refl in Hrec. done. }
  destruct (cancelled_entry_create_fails snapshot e w s record cal_event c body id c')
    as (? & ? & ? & _ & message & ? & _); try done.
  do 3 (split; [done|]). by exists message.
Qed.

End Properties.

(** * Runs on concrete inputs *)
Section Concrete.
Import InMemory Scenario.
Local Existing Instance env.

(** C1, as stated, fails: a sheet whose only row lacks an Event ID has no
    valid event, and the run returns "partial", not "error". *)
Lemma empty_valid_set_reports_partial :
  valid_events (read_sheet_events sheet_missing_id (database fresh)).1 = [] ∧
  ∃ r, (run sheet_missing_id fresh).1 = Ok r ∧
       response_status r = "partial" ∧ response_status r ≠ "error".
Proof.
  split; [vm_compute; reflexivity|].
  eexists. split; [vm_compute; reflexivity|]. split; [reflexivity|discriminate].
Qed.

(** C2, as stated, fails: two valid rows with the same Event ID and start
    but different names share one record; the first run succeeds (one
    create, one update, no error) and the second run, on the same sheet,
    updates twice and skips nothing. *)
Lemma same_identity_rows_update_again :
  let first := run sheet_same_key fresh in
  let second := run sheet_same_key first.2 in
  List.length (valid_events (read_sheet_events sheet_same_key (database fresh)).1) = 2 ∧
  res_status (summary_of first) = "success" ∧
  res_created (summary_of first) = 1 ∧ res_errors (summary_of first) = 0 ∧
  res_status (summary_of second) = "success" ∧
  res_created (summary_of second) = 0 ∧
  res_updated (summary_of second) = 2 ∧ res_skipped (summary_of second) = 0.
Proof. vm_compute. repeat split; reflexivity. Qed.

(** C5, as stated, fails: after a first run, moving the start time of the
    row gives a create and no update (the identityKey is new), and
    rewriting the name in another case with blanks around it gives a skip
    and no update. *)
Lemma changed_start_is_created_not_updated :
  let moved := run sheet_standup_moved synced_once in
  let upper := run sheet_standup_upper synced_once in
  res_status (summary_of moved) = "success" ∧
  res_updated (summary_of moved) = 0 ∧ res_created (summary_of moved) = 1 ∧
  res_status (summary_of upper) = "success" ∧
  res_updated (summary_of upper) = 0 ∧ res_skipped (summary_of upper) = 1.
Proof. vm_compute. repeat split; reflexivity. Qed.


(** C9, as stated, fails for the INSERT of the create path: given a row
    whose calendar_event_id is already in the table it raises, and the
    existing mapping stays; in a run, the event is counted as an error. *)
Lemma plain_insert_does_not_replace :
  Sql.insert (synced_row_of standup "evt0") [other_row]
  = Raise "UNIQUE constraint failed: synced_events.calendar_event_id" ∧
  let out := run sheet_standup id_taken in
  synced out.2 = [other_row] ∧
  res_errors (summary_of out) = 1 ∧ res_created (summary_of out) = 0.
Proof. vm_compute. repeat split; reflexivity. Qed.

(** C3: the record of A1 links evt0, which the calendar returns with status
    "cancelled", and nothing in the snapshot matches.  The run creates a new
    entry, then fails to insert its record: one error, no created, status
    "partial", the stale record still in the table. *)
Theorem cancelled_entry_surfaces_error :
  let out := run sheet_standup entry_cancelled in
  res_status (summary_of out) = "partial" ∧
  res_errors (summary_of out) = 1 ∧ res_created (summary_of out) = 0 ∧
  synced out.2 = synced entry_cancelled ∧
  map calendar_event_id (synced out.2) = ["evt0"] ∧
  map entry_id (entries (calendar out.2)) = ["evt0"; "evt1"] ∧
  map failed_error_message (failed_events (database out.2))
  = ["UNIQUE constraint failed: synced_events.unique_event_id"].
Proof. vm_compute. repeat split; reflexivity. Qed.

(** C4: a <br> in the description is removed with the other tags before
    the replacement of "<br>" by a newline is reached, so "a<br>b" becomes
    "ab"; only a <br> spelled with entities becomes a newline. *)
Theorem br_tag_is_dropped :
  to_google_event standup_with_break
  = Ok (mk_GoogleEvent "Standup" "2025-03-01T09:00:00" "Africa/Cairo"
          "2025-03-01T09:15:00" "Africa/Cairo" (Some "ab") (Some "1")) ∧
  clean_description "a<br>b" = "ab" ∧
  clean_description "a&lt;br&gt;b" = "a" +:+ String (ascii_of_nat 10) "b".
Proof. vm_compute. repeat split; reflexivity. Qed.

End Concrete.

Section Witnesses.
Import InMemory Scenario.
Local Existing Instance env.

(** C2 on a concrete input. The end-to-end example run twice: the first run
    creates the one event, the second skips it. *)
Lemma second_run_skips_all_witness :
  res_created (summary_of (run sheet_standup fresh)) = 1 ∧
  ∃ summary2 w2,
    sync_events "manual" sheet_standup synced_once = (Ok (Synced summary2), w2) ∧
    res_created summary2 = 0 ∧ res_updated summary2 = 0 ∧
    res_skipped summary2 = 1 ∧ res_errors summary2 = 0 ∧
    res_status summary2 = "success" ∧
    synced w2 = synced synced_once.
Proof.
  split; [vm_compute; reflexivity|].
  apply (second_run_skips_all "manual" "manual" sheet_standup fresh
           (summary_of (run sheet_standup fresh)) synced_once).
  - vm_compute. apply NoDup_singleton.
  - vm_compute. reflexivity.
  - vm_compute. reflexivity.
  - intros time_min time_max e r c He Hsel.
    vm_compute in He. apply list_elem_of_singleton in He as ->.
    vm_compute in Hsel. injection Hsel as <-.
    eexists. split; [vm_compute; reflexivity|discriminate].
Defined.


(** C5 on a concrete input. The synced Standup with a description added is
    skipped; with a later end time it is updated once, also as a whole run. *)
Lemma content_hash_change_detection_witness :
  res_updated (summary_of (run sheet_standup_later synced_once)) = 1 ∧
  content_hash standup_described = content_hash standup ∧
  (process_event ∅ (synced_once, zero_stats) standup_described).2 = add_skipped zero_stats ∧
  (process_event ∅ (synced_once, zero_stats) standup_later).2 = add_updated zero_stats.
Proof.
  destruct content_hash_change_detection as (Hhash & Hskip & Hupdate & _ & _).
  split; [vm_compute; reflexivity|].
  split; [by apply (Hhash standup_described standup)|].
  split.
  - eapply (Hskip ∅ synced_once zero_stats standup standup_described);
      try (vm_compute; reflexivity).
    discriminate.
  - edestruct (Hupdate ∅ synced_once zero_stats standup standup_later) as (_ & Hout & _).
    + vm_compute. reflexivity.
    + vm_compute. reflexivity.
    + vm_compute. reflexivity.
    + vm_compute. reflexivity.
    + vm_compute. reflexivity.
    + vm_compute. reflexivity.
    + right. discriminate.
    + intros Hcollision. vm_compute in Hcollision. discriminate.
    + vm_compute. reflexivity.
    + discriminate.
    + vm_compute. reflexivity.
    + vm_compute. reflexivity.
    + exact Hout.
Defined.


(** C7 on a concrete input. Standup has no record and the snapshot holds an
    untracked entry with its content key: the event is linked to "manual7"
    and skipped. *)
Lemma relink_existing_witness :
  let out := process_event untracked_snapshot (fresh, zero_stats) standup in
  map calendar_event_id (synced out.1) = ["manual7"] ∧
  skipped out.2 = 1 ∧ created out.2 = 0 ∧ trace out.1 = [].
Proof.
  destruct (relink_existing untracked_snapshot fresh zero_stats standup untracked_entry)
    as (Hsynced & _ & _ & _ & _ & Hskipped & Hcreated & _ & _ & Htrace & _).
  - vm_compute. reflexivity.
  - vm_compute. reflexivity.
  - simpl. rewrite Hsynced, Hskipped, Hcreated, Htrace.
    vm_compute. repeat split; reflexivity.
Defined.

(** C8 on a concrete input. Three inserts fail in a row: one error with the
    last message, the row number 2 in the failure log, no record. *)
Lemma create_retry_exhaustion_witness :
  let out := process_event ∅ (failing, zero_stats) standup in
  errors out.2 = 1 ∧ created out.2 = 0 ∧ synced out.1 = [] ∧
  failed_events (database out.1)
  = [mk_FailedRow "A1" "A1_2025-03-01T09:00:00" "Standup" "503 Backend Error" 2] ∧
  List.length (List.filter is_calendar_insert (trace out.1)) = 3.
Proof.
  destruct create_retry_exhaustion as [_ Hexhaust].
  edestruct (Hexhaust ∅ failing zero_stats standup failing zero_stats)
    as (_ & Herr & Hcre & _ & _ & _ & Hfail & Hsynced & _ & Htrace & _).
  - vm_compute. reflexivity.
  - vm_compute. reflexivity.
  - vm_compute. reflexivity.
  - vm_compute. reflexivity.
  - vm_compute. reflexivity.
  - vm_compute. reflexivity.
  - simpl. rewrite Herr, Hcre, Hfail, Hsynced, Htrace.
    vm_compute. repeat split; reflexivity.
Defined.

(** C9 on a concrete input. Linking Standup to evt0 in a table where another
    record holds evt0: the new row replaces the old one, and the constraints
    still hold.  Creating Standup on a calendar that hands out evt0 while
    that record holds evt0: the INSERT is rejected, the event is an error
    and the table is unchanged. *)
Lemma synced_events_uniqueness_witness :
  unique_keys [other_row] ∧
  unique_keys (Sql.insert_or_replace (synced_row_of standup "evt0") [other_row]) ∧
  Sql.insert_or_replace (synced_row_of standup "evt0") [other_row]
  = [synced_row_of standup "evt0"] ∧
  let out := process_event ∅ (id_taken, zero_stats) standup in
  errors out.2 = 1 ∧ created out.2 = 0 ∧ synced out.1 = [other_row].
Proof.
  assert (unique_keys [other_row]) as Hu by (split; apply NoDup_singleton).
  split; [exact Hu|].
  destruct (synced_events_uniqueness (E := env) [other_row] Hu)
    as (_ & _ & _ & _ & Hreplace & _ & _ & _ & Hreject & _).
  destruct (Hreplace (synced_row_of standup "evt0")) as (Hkeys & _ & _).
  split; [exact Hkeys|]. split; [vm_compute; reflexivity|].
  edestruct (Hreject ∅ id_taken zero_stats standup) as (_ & Herr & Hcre & Hsy & _).
  - reflexivity.
  - vm_compute. reflexivity.
  - vm_compute. reflexivity.
  - vm_compute. reflexivity.
  - vm_compute. reflexivity.
  - discriminate.
  - vm_compute. reflexivity.
  - cbv zeta. rewrite Herr, Hcre, Hsy. repeat split; reflexivity.
Defined.

End Witnesses.

(** * Further properties *)

Section MoreProperties.
Context {E : Environment}.
Implicit Types (w : World) (s : Stats) (e event : CalendarEvent).

Local Opaque Sha256.hexdigest.

(** ** The reader: when the row loop raises *)

Lemma read_row_raises headers n row :
  match read_row headers n row with
  | Raise _ => row_raises headers row = true
  | Ok _ => row_raises headers row = false
  end.
Proof.
  unfold read_row, row_raises, row_id, parse_raises. destruct row as [|c row]; [done|].
  cbv zeta. destruct (String.eqb _ ""); [done|].
  destruct (parse (dict_get _ "Start Date/Time" "")); [|done].
  by destruct (parse (dict_get _ "End Date/Time" "")).
Qed.

Lemma read_rows_raises headers n rows acc :
  match read_rows headers n rows acc with
  | Raise _ => existsb (row_raises headers) rows = true
  | Ok _ => existsb (row_raises headers) rows = false
  end.
Proof.
  revert n acc. induction rows as [|row rows IH]; intros n acc; simpl; [done|].
  pose proof (read_row_raises headers n row) as Hrow.
  destruct (read_row headers n row) as [o|]; rewrite Hrow; [|done]. apply IH.
Qed.

(** The two ways [read_sheet_events] ends on a sheet with data rows. *)
Lemma read_sheet_events_rows headers first rest db :
  let rows := first :: rest in
  if existsb (row_raises headers) rows
  then read_sheet_events (Ok (headers :: rows)) db = (empty_reading, db)
  else ∃ r, read_rows headers 2 rows empty_reading = Ok r ∧
            read_sheet_events (Ok (headers :: rows)) db
            = (r, mk_Database (synced_events db) (sync_log db) (failed_events db)
                    (validation_errors db ++ validation_rows r)
                    (duplicate_events db ++ duplicate_rows r)).
Proof.
  intros rows. subst rows. unfold read_sheet_events.
  pose proof (read_rows_raises headers 2 (first :: rest) empty_reading) as H.
  destruct (read_rows headers 2 (first :: rest) empty_reading) as [r|]; rewrite H; [|done].
  by exists r.
Qed.

(** ** The reader: every row is accounted for *)

Lemma read_row_empty headers n row :
  is_data_row row = false → read_row headers n row = Ok RowEmpty.
Proof. by destruct row. Qed.

Lemma read_row_data headers n row :
  is_data_row row = true → read_row headers n row ≠ Ok RowEmpty.
Proof.
  destruct row as [|c row]; [done|]. intros _ H. apply read_row_ok in H. cbv zeta in H.
  destruct (String.eqb _ ""); [done|]. destruct H as (sp & ep & _ & _ & H).
  revert H. unfold build_row. by repeat case_match.
Qed.

Lemma record_row_lengths acc o :
  List.length (valid_events (record_row acc o)) + List.length (invalid_events (record_row acc o))
  = List.length (valid_events acc) + List.length (invalid_events acc)
    + (match o with RowEmpty => 0 | _ => 1 end).
Proof. destruct o; simpl; rewrite ?length_app; simpl; lia. Qed.

Lemma read_rows_lengths headers n rows acc r :
  read_rows headers n rows acc = Ok r →
  List.length (valid_events r) + List.length (invalid_events r)
  = List.length (valid_events acc) + List.length (invalid_events acc)
    + List.length (List.filter is_data_row rows).
Proof.
  revert n acc. induction rows as [|row rows IH]; intros n acc Hr.
  { injection Hr as <-. simpl. lia. }
  apply read_rows_cons in Hr as (o & Ho & Hr).
  rewrite (IH _ _ Hr), record_row_lengths. simpl.
  destruct (is_data_row row) eqn:Hd; simpl.
  - pose proof (read_row_data headers n row Hd). destruct o; [congruence|lia..].
  - rewrite (read_row_empty headers n row Hd) in Ho. injection Ho as <-. lia.
Qed.

(** Unless a date cell makes the parser raise, every data row of the sheet
    ends in exactly one of the two lists the reader returns, and each
    invalid report becomes one validation_errors row; when the parser
    raises (in a row that has an Event ID) the reader returns empty lists
    and an empty tally and writes nothing.  synced_events is left alone
    either way. *)
Theorem read_sheet_events_accounts headers first rest db :
  let rows := first :: rest in
  let out := read_sheet_events (Ok (headers :: rows)) db in
  (if existsb (row_raises headers) rows
   then out = (empty_reading, db)
   else
     List.length (valid_events out.1) + List.length (invalid_events out.1)
     = List.length (List.filter is_data_row rows) ∧
     List.length (validation_errors out.2)
     = List.length (validation_errors db) + List.length (invalid_events out.1)) ∧
  synced_events out.2 = synced_events db.
Proof.
  intros rows out. subst out rows.
  pose proof (read_sheet_events_rows headers first rest db) as H. cbv zeta in H.
  destruct (existsb _ _).
  - by rewrite H.
  - destruct H as (r & Hr & ->). cbn [fst snd]. split; [|done]. split.
    + rewrite (read_rows_lengths _ _ _ _ _ Hr). simpl. lia.
    + cbn [validation_errors]. unfold validation_rows.
      by rewrite length_app, length_map.
Qed.

(** ** The reader: what the valid events look like *)

Lemma is_valid_true e :
  is_valid e = true →
  PyStr.strip (name e) ≠ "" ∧ datetime_ltb (start_time e) (end_time e) = true.
Proof.
  unfold is_valid, validation_errors_of, datetime_leb.
  destruct (String.eqb (name e) ""); [done|].
  destruct (String.eqb (PyStr.strip (name e)) "") eqn:Hn; [done|].
  destruct (datetime_ltb (start_time e) (end_time e)); [|done].
  intros _. split; [by apply String.eqb_neq|done].
Qed.

Lemma increasing_snoc (l : list nat) (x : nat) :
  increasing l → Forall (fun y => y < x) l → increasing (l ++ [x]).
Proof.
  intros Hl Hall i j a b Hij Ha Hb.
  assert (i < List.length l) as Hi.
  { apply lookup_lt_Some in Hb. rewrite length_app in Hb. simpl in Hb. lia. }
  rewrite lookup_app_l in Ha by done.
  destruct (decide (j < List.length l)) as [Hj|Hj].
  - rewrite lookup_app_l in Hb by done. by apply (Hl i j).
  - rewrite lookup_app_r in Hb by lia.
    destruct (j - List.length l) eqn:Hd; simpl in Hb; [|done].
    injection Hb as <-. rewrite Forall_forall in Hall. apply Hall.
    by eapply list_elem_of_lookup_2.
Qed.

Lemma read_rows_from_row headers done_ rows acc r :
  Forall (from_row headers (done_ ++ rows)) (valid_events acc) →
  Forall (fun e => row_number e < 2 + List.length done_) (valid_events acc) →
  increasing (map row_number (valid_events acc)) →
  read_rows headers (2 + List.length done_) rows acc = Ok r →
  Forall (from_row headers (done_ ++ rows)) (valid_events r) ∧
  increasing (map row_number (valid_events r)).
Proof.
  revert done_ acc. induction rows as [|row rows IH]; intros done_ acc Hfrom Hlt Hsorted Hr.
  { injection Hr as <-. by split. }
  apply read_rows_cons in Hr as (o & Ho & Hr).
  replace (S (2 + List.length done_)) with (2 + List.length (done_ ++ [row])) in Hr
    by (rewrite length_app; simpl; lia).
  replace (done_ ++ row :: rows) with ((done_ ++ [row]) ++ rows) in *
    by (by rewrite <- app_assoc).
  apply (IH _ _) in Hr; [done|..].
  - destruct o as [|?|??|??|eid ev]; simpl; try done.
    apply Forall_app. split; [done|]. constructor; [|constructor].
    pose proof (outcome_id_read_row headers (2 + List.length done_) row _ Ho) as Hid.
    simpl in Hid.
    destruct (read_row_accepted _ _ _ _ _ Ho) as (Hs & Hn & Hv & Hu).
    destruct (is_valid_true ev Hv) as [Hname Htime].
    repeat split; try done.
    + rewrite Hs. intros ->. unfold row_id in Hid. destruct row; [done|].
      destruct (String.eqb _ "") eqn:Hq; [done|].
      apply String.eqb_neq in Hq. by injection Hid as Hid.
    + by rewrite Hu, Hs.
    + lia.
    + exists row. rewrite Hs, Hn. split; [|done].
      replace (2 + List.length done_ - 2) with (List.length done_ + 0) by lia.
      rewrite <- app_assoc. by rewrite lookup_app_r, Nat.add_0_r, Nat.sub_diag by lia.
  - assert (Forall (fun e => row_number e < 2 + List.length (done_ ++ [row]))
              (valid_events acc)) as Hlt'.
    { rewrite length_app. eapply Forall_impl; [exact Hlt|]. simpl. intros. lia. }
    destruct o as [|?|??|??|eid ev]; cbn [record_row valid_events]; try done.
    apply Forall_app. split; [done|].
    constructor; [|constructor].
    destruct (read_row_accepted _ _ _ _ _ Ho) as (_ & -> & _).
    rewrite length_app. simpl. lia.
  - destruct o as [|?|??|??|eid ev]; simpl; try done.
    rewrite map_app. simpl. apply increasing_snoc; [done|].
    destruct (read_row_accepted _ _ _ _ _ Ho) as (_ & -> & _).
    by apply Forall_map.
Qed.

(** Every event the reader hands to the engine has a non-blank name, an
    end after its start, a non-empty source id, the identity key
    sourceId_start, and the number of the sheet row it was read from (that
    row carries its Event ID); the events come in sheet order. *)
Theorem valid_events_come_from_rows headers first rest db :
  let rows := first :: rest in
  let r := (read_sheet_events (Ok (headers :: rows)) db).1 in
  Forall (from_row headers rows) (valid_events r) ∧
  increasing (map row_number (valid_events r)).
Proof.
  intros rows r. subst r rows.
  pose proof (read_sheet_events_rows headers first rest db) as H. cbv zeta in H.
  destruct (existsb _ _).
  - rewrite H. split; [apply Forall_nil_2|by intros i j a b _ ?].
  - destruct H as (r & Hr & ->). cbn [fst].
    apply (read_rows_from_row headers [] (first :: rest) empty_reading r);
      [apply Forall_nil_2|apply Forall_nil_2|by intros i j a b _ ?|done].
Qed.

(** ** The reader: the duplicate tally *)

Lemma tally_count_record_row k acc o :
  tally_count k (duplicate_tracking (record_row acc o))
  = tally_count k (duplicate_tracking acc)
    + (if bool_decide (outcome_id o = Some k) then 1 else 0).
Proof.
  unfold tally_count at 1. rewrite tally_record_row.
  destruct (bool_decide _); simpl; [lia|]. unfold tally_count. lia.
Qed.

Lemma tally_count_read_rows k headers n rows acc r :
  read_rows headers n rows acc = Ok r →
  tally_count k (duplicate_tracking r)
  = tally_count k (duplicate_tracking acc) + List.length (rows_with_id headers k rows).
Proof.
  revert n acc. induction rows as [|row rows IH]; intros n acc Hr.
  { injection Hr as <-. simpl. lia. }
  apply read_rows_cons in Hr as (o & Ho & Hr).
  rewrite (IH _ _ Hr), tally_count_record_row, (outcome_id_read_row _ _ _ _ Ho). simpl.
  destruct (bool_decide _); simpl; lia.
Qed.

Lemma tally_incr_keys k t :
  NoDup (map fst t) → Forall (fun kv => 1 ≤ kv.2) t →
  NoDup (map fst (tally_incr k t)) ∧ Forall (fun kv => 1 ≤ kv.2) (tally_incr k t) ∧
  (∀ x, x ∈ map fst (tally_incr k t) → x = k ∨ x ∈ map fst t).
Proof.
  induction t as [|[k0 n0] t IH]; simpl.
  - intros _ _. split; [apply NoDup_singleton|]. split; [by repeat constructor|].
    intros x ->%list_elem_of_singleton. by left.
  - intros [Hk0 Hnd]%NoDup_cons [Hn0 Hall]%Forall_cons. simpl in *.
    destruct (String.eqb k0 k) eqn:Hq; simpl.
    + split; [by apply NoDup_cons|]. split; [constructor; [simpl; lia|done]|].
      intros x Hx. by right.
    + destruct (IH Hnd Hall) as (IH1 & IH2 & IH3).
      split.
      { apply NoDup_cons. split; [|done]. intros [->|Hin]%IH3; [|done].
        by rewrite String.eqb_refl in Hq. }
      split; [by constructor|].
      intros x [->|Hx]%elem_of_cons; [right; by left|].
      destruct (IH3 x Hx); [by left|right; by right].
Qed.

Lemma record_row_keys acc o :
  NoDup (map fst (duplicate_tracking acc)) →
  Forall (fun kv => 1 ≤ kv.2) (duplicate_tracking acc) →
  NoDup (map fst (duplicate_tracking (record_row acc o))) ∧
  Forall (fun kv => 1 ≤ kv.2) (duplicate_tracking (record_row acc o)).
Proof.
  intros H1 H2. destruct o; simpl; try done;
    by destruct (tally_incr_keys event_id _ H1 H2) as (? & ? & _).
Qed.

Lemma read_rows_keys headers n rows acc r :
  NoDup (map fst (duplicate_tracking acc)) →
  Forall (fun kv => 1 ≤ kv.2) (duplicate_tracking acc) →
  read_rows headers n rows acc = Ok r →
  NoDup (map fst (duplicate_tracking r)) ∧
  Forall (fun kv => 1 ≤ kv.2) (duplicate_tracking r).
Proof.
  revert n acc. induction rows as [|row rows IH]; intros n acc H1 H2 Hr.
  { by injection Hr as <-. }
  apply read_rows_cons in Hr as (o & Ho & Hr).
  destruct (record_row_keys acc o H1 H2). by eapply IH.
Qed.

Lemma tally_get_positive k t c :
  Forall (fun kv => 1 ≤ kv.2) t → tally_get k t = Some c → 1 ≤ c.
Proof.
  induction 1 as [|[k0 n0] t Hn _ IH]; simpl; [done|].
  destruct (String.eqb k0 k); [by intros [= <-]|done].
Qed.

(** Unless a date cell makes the parser raise, the tally lists each Event
    ID once and maps it to the number of data rows that carry it, the rows
    whose dates do not parse or that fail validation included, and an
    Event ID no row carries is absent; when the parser raises the tally is
    empty, whatever the rows carry. *)
Theorem tally_counts_rows headers first rest db k :
  let rows := first :: rest in
  let tally := duplicate_tracking (read_sheet_events (Ok (headers :: rows)) db).1 in
  NoDup (map fst tally) ∧
  if existsb (row_raises headers) rows then tally = []
  else
    tally_get k tally
    = match List.length (rows_with_id headers k rows) with
      | 0 => None
      | c => Some c
      end.
Proof.
  intros rows tally. subst tally rows.
  pose proof (read_sheet_events_rows headers first rest db) as H. cbv zeta in H.
  destruct (existsb _ _).
  { rewrite H. split; [apply NoDup_nil_2|done]. }
  destruct H as (r & Hr & ->). cbn [fst].
  destruct (read_rows_keys headers 2 (first :: rest) empty_reading r) as [Hnd Hpos];
    [constructor|constructor|done|].
  split; [done|].
  pose proof (tally_count_read_rows k headers 2 (first :: rest) empty_reading r Hr) as Hc.
  change (tally_count k (duplicate_tracking empty_reading)) with 0 in Hc.
  unfold tally_count in Hc.
  destruct (tally_get k _) as [c|] eqn:Hg; cbn [default] in Hc.
  - pose proof (tally_get_positive k _ c Hpos Hg).
    rewrite Nat.add_0_l in Hc. rewrite <- Hc. by destruct c; [lia|].
  - rewrite Nat.add_0_l in Hc. by rewrite <- Hc.
Qed.

(** ** The reader: cells, headers and sheets without rows *)

Lemma event_data_other (f : nat → nat) (hs row : list string) (d : gmap string string) k :
  k ∉ hs →
  foldl (fun d ih => <[ snd ih := default "" (row !! fst ih) ]> d) d
        (imap (fun i h => (f i, h)) hs) !! k
  = d !! k.
Proof.
  revert f d. induction hs as [|h hs IH]; intros f d Hk; simpl; [done|].
  apply not_elem_of_cons in Hk as [Hne Hk].
  rewrite (IH (f ∘ S)) by done. by rewrite lookup_insert_ne.
Qed.

Lemma event_data_last (f : nat → nat) (h1 h2 row : list string) (d : gmap string string) k :
  k ∉ h2 →
  foldl (fun d ih => <[ snd ih := default "" (row !! fst ih) ]> d) d
        (imap (fun i h => (f i, h)) (h1 ++ k :: h2)) !! k
  = Some (default "" (row !! f (List.length h1))).
Proof.
  intros Hk. rewrite imap_app, foldl_app. simpl.
  rewrite (event_data_other (fun n => f (List.length h1 + S n))) by done.
  by rewrite lookup_insert_eq, Nat.add_0_r.
Qed.

(** A cell is looked up under the last column whose header has the name
    asked for; a row too short to reach that column gives the empty string,
    and a name that is no header gives the default of the call. *)
Theorem event_data_lookup (headers row : list string) k dflt :
  (k ∉ headers → dict_get (make_event_data headers row) k dflt = dflt) ∧
  (∀ h1 h2, headers = h1 ++ k :: h2 → k ∉ h2 →
     dict_get (make_event_data headers row) k dflt
     = default "" (row !! List.length h1)).
Proof.
  unfold dict_get, make_event_data. split.
  - intros Hk. by rewrite (event_data_other (fun i => i)).
  - intros h1 h2 -> Hk. by rewrite (event_data_last (fun i => i)).
Qed.

Lemma read_row_without_id_header headers n row :
  "Event ID" ∉ headers → is_data_row row = true →
  ∃ nm, read_row headers n row
        = Ok (RowMissingId (mk_InvalidEvent n nm "Missing Event ID" None None)).
Proof.
  intros Hk Hrow. destruct row as [|c row]; [done|].
  unfold read_row, dict_get, make_event_data.
  rewrite (event_data_other (fun i => i)) by done. simpl. by eexists.
Qed.

Lemma read_rows_without_id_header headers n rows acc :
  "Event ID" ∉ headers →
  ∃ r, read_rows headers n rows acc = Ok r ∧
  valid_events r = valid_events acc ∧
  duplicate_tracking r = duplicate_tracking acc ∧
  ∃ reports, invalid_events r = invalid_events acc ++ reports ∧
             Forall (fun inv => inv_error inv = "Missing Event ID") reports.
Proof.
  intros Hk. revert n acc. induction rows as [|row rows IH]; intros n acc; simpl.
  { exists acc. repeat split. exists []. by rewrite app_nil_r. }
  destruct (is_data_row row) eqn:Hd.
  - destruct (read_row_without_id_header headers n row Hk Hd) as [nm ->].
    destruct (IH (S n) (record_row acc (RowMissingId
                (mk_InvalidEvent n nm "Missing Event ID" None None))))
      as (r & Hr & Hv & Ht & reports & Hi & Hall).
    exists r. split; [done|]. split; [done|]. split; [done|].
    eexists (_ :: reports). rewrite Hi. simpl. rewrite <- app_assoc.
    split; [done|]. by constructor.
  - rewrite (read_row_empty headers n row Hd). apply IH.
Qed.

(** A sheet whose header row has no 'Event ID' column yields no event and
    an empty tally: each data row is reported invalid with 'Missing Event
    ID'. *)
Theorem sheet_without_event_id_column headers first rest db :
  "Event ID" ∉ headers →
  let rows := first :: rest in
  let r := (read_sheet_events (Ok (headers :: rows)) db).1 in
  valid_events r = [] ∧ duplicate_tracking r = [] ∧
  List.length (invalid_events r) = List.length (List.filter is_data_row rows) ∧
  Forall (fun inv => inv_error inv = "Missing Event ID") (invalid_events r).
Proof.
  intros Hk rows r. subst r rows. unfold read_sheet_events.
  destruct (read_rows_without_id_header headers 2 (first :: rest) empty_reading Hk)
    as (r & Hr & Hv & Ht & reports & Hi & Hall).
  rewrite Hr. cbn [fst].
  pose proof (read_rows_lengths headers 2 (first :: rest) empty_reading r Hr) as Hlen.
  rewrite Hv, Hi in Hlen. rewrite Hv, Ht, Hi.
  change (valid_events empty_reading) with (@nil CalendarEvent) in *.
  change (invalid_events empty_reading) with (@nil InvalidEvent) in *.
  change (duplicate_tracking empty_reading) with (@nil (string * nat)).
  split; [done|]. split; [done|]. split; [|done].
  simpl in Hlen. simpl. lia.
Qed.

(** A sheet that cannot be read, an empty response and a header row on its
    own are all treated alike: no event, no report, nothing written, and the
    run ends with status "error" before any calendar call. *)
Theorem sheet_without_data trigger sheet w :
  no_data sheet →
  read_sheet_events sheet (database w) = (empty_reading, database w) ∧
  sync_events trigger sheet w
  = (Ok (NoValidEvents "error" "No valid events in sheet" 0 []), act SheetsGet w).
Proof.
  intros Hno.
  assert (∀ db, read_sheet_events sheet db = (empty_reading, db)) as Hread.
  { intros db. unfold read_sheet_events.
    destruct sheet as [[|headers [|row rows]]|msg]; simpl in Hno; try done. lia. }
  split; [apply Hread|].
  unfold sync_events. rewrite Hread. simpl. by destruct w.
Qed.

(** ** The calendar snapshot *)

Lemma index_entry_indexable m ev :
  index_entry m ev = if indexable ev then <[ snapshot_key ev := ev ]> m else m.
Proof.
  unfold index_entry, indexable, snapshot_key.
  destruct (bool_decide _); simpl; [done|].
  destruct (_ || _); simpl; [done|]. by destruct (fromisoformat_iso _).
Qed.

Lemma index_pages_concat (m : gmap string RawEvent) pages :
  foldl (foldl index_entry) m pages = foldl index_entry m (concat pages).
Proof.
  revert m. induction pages as [|page pages IH]; intros m; simpl; [done|].
  by rewrite IH, foldl_app.
Qed.

Lemma index_fold_lookup (m : gmap string RawEvent) (l : list RawEvent) k :
  foldl index_entry m l !! k
  = match last (List.filter (fun ev => indexable ev && String.eqb (snapshot_key ev) k) l) with
    | Some ev => Some ev
    | None => m !! k
    end.
Proof.
  revert m. induction l as [|x l IH]; intros m; simpl; [done|].
  rewrite IH, index_entry_indexable.
  destruct (indexable x); simpl.
  - destruct (String.eqb (snapshot_key x) k) eqn:Hk; simpl.
    + apply String.eqb_eq in Hk as <-.
      destruct (List.filter _ l) as [|y l'] eqn:Hf; simpl.
      * by rewrite lookup_insert_eq.
      * by destruct (last (y :: l')) eqn:Hl; [|apply last_None in Hl].
    + apply String.eqb_neq in Hk. by rewrite lookup_insert_ne.
  - done.
Qed.

Lemma listing_calls_pages responses :
  match listing_pages responses with
  | None => listing_calls responses = S (listing_fetched responses)
  | Some pages => listing_calls responses = List.length pages
  end.
Proof.
  induction responses as [items rest IH|items|message]; simpl; [|done..].
  destruct (listing_pages rest); simpl; by rewrite IH.
Qed.

(** The snapshot builder calls the listing once per page, at least once,
    and once more for a call that fails; it leaves the database alone.
    When a call fails the index is empty, whatever the pages before it
    held; otherwise a key maps to the last listed entry that is not
    cancelled, has a non-blank summary and a start dateTime, and whose
    summary and start give that key, so an indexed entry is never a
    cancelled one. *)
Theorem calendar_snapshot time_min time_max w :
  let tmin := isoformat time_min +:+ "Z" in
  let tmax := isoformat time_max +:+ "Z" in
  let responses := (events_list (calendar w) tmin tmax).1 in
  let out := get_existing_calendar_events time_min time_max w in
  database out.2 = database w ∧
  trace out.2 = trace w ++ repeat (CalendarList tmin tmax) (listing_calls responses) ∧
  1 ≤ listing_calls responses ∧
  match listing_pages responses with
  | None => out.1 = ∅ ∧ listing_calls responses = S (listing_fetched responses)
  | Some pages =>
      listing_calls responses = List.length pages ∧
      ∀ k, out.1 !! k = last (indexed_under k pages) ∧
           ∀ ev, out.1 !! k = Some ev →
                 ev ∈ concat pages ∧ entry_status ev ≠ Some "cancelled" ∧
                 snapshot_key ev = k
  end.
Proof.
  intros tmin tmax responses out. subst out responses tmin tmax.
  unfold get_existing_calendar_events.
  destruct (events_list (calendar w) _ _) as [responses c]. cbn [fst].
  rewrite (index_listing_world _ _ responses ∅ w).
  split; [by destruct (listing_pages responses)|].
  split; [by destruct (listing_pages responses)|].
  split; [destruct responses; simpl; lia|].
  pose proof (listing_calls_pages responses) as Hcalls.
  destruct (listing_pages responses) as [pages|]; cbn [fst snd]; [|done].
  split; [done|]. intros k.
  assert (foldl (foldl index_entry) ∅ pages !! k = last (indexed_under k pages)) as Hk.
  { rewrite index_pages_concat, index_fold_lookup. unfold indexed_under.
    by destruct (last _). }
  split; [done|]. intros ev Hev. rewrite Hk in Hev.
  apply last_Some in Hev as [l' Hl'].
  assert (ev ∈ indexed_under k pages) as Hin.
  { rewrite Hl'. apply elem_of_app. right. by left. }
  unfold indexed_under in Hin.
  apply list_elem_of_In, filter_In in Hin as [Hin Hp].
  apply andb_true_iff in Hp as [Hi Hk'].
  split; [by apply list_elem_of_In|]. split; [|by apply String.eqb_eq].
  unfold indexable in Hi. apply andb_true_iff in Hi as [Hi _].
  by apply negb_true_iff, bool_decide_eq_false in Hi.
Qed.

(** ** The time window of a run *)

Ltac compare_fields :=
  repeat match goal with
         | |- context [N.ltb ?x ?y] => destruct (N.ltb_spec x y)
         | H : context [N.ltb ?x ?y] |- _ => destruct (N.ltb_spec x y)
         end.

Lemma lex_ltb_cotrans (a b c : list N) :
  List.length a = List.length b → List.length b = List.length c →
  lex_ltb a c = true → lex_ltb a b = true ∨ lex_ltb b c = true.
Proof.
  revert b c. induction a as [|x a IH]; intros [|y b] [|z c]; simpl; try done.
  intros [= Hab] [= Hbc]. specialize (IH b c Hab Hbc).
  compare_fields; try lia; auto.
Qed.

Lemma lex_ltb_asym (a b : list N) : lex_ltb a b = true → lex_ltb b a = false.
Proof.
  revert b. induction a as [|x a IH]; intros [|y b]; simpl; try done.
  specialize (IH b). compare_fields; try lia; auto.
Qed.

Lemma datetime_ltb_leb a b : datetime_ltb a b = true → datetime_leb a b = true.
Proof. intros H. unfold datetime_leb. apply negb_true_iff. by apply lex_ltb_asym. Qed.

Lemma datetime_ltb_cotrans a b c :
  datetime_ltb a c = true → datetime_ltb a b = true ∨ datetime_ltb b c = true.
Proof. by apply lex_ltb_cotrans. Qed.

Lemma datetime_ltb_leb_trans a b c :
  datetime_ltb a b = true → datetime_leb b c = true → datetime_ltb a c = true.
Proof.
  unfold datetime_leb. intros Hab Hbc%negb_true_iff.
  destruct (datetime_ltb a c) eqn:Hac; [done|].
  destruct (datetime_ltb_cotrans a c b Hab); congruence.
Qed.

Lemma datetime_leb_ltb_trans a b c :
  datetime_leb a b = true → datetime_ltb b c = true → datetime_ltb a c = true.
Proof.
  unfold datetime_leb. intros Hab%negb_true_iff Hbc.
  destruct (datetime_ltb a c) eqn:Hac; [done|].
  destruct (datetime_ltb_cotrans b a c Hbc); congruence.
Qed.

Lemma datetime_leb_refl a : datetime_leb a a = true.
Proof.
  unfold datetime_leb, datetime_ltb. apply negb_true_iff.
  induction (datetime_key a) as [|x l IH]; simpl; [done|].
  by rewrite N.ltb_irrefl.
Qed.

Lemma datetime_leb_trans a b c :
  datetime_leb a b = true → datetime_leb b c = true → datetime_leb a c = true.
Proof.
  unfold datetime_leb. intros Hab%negb_true_iff Hbc%negb_true_iff. apply negb_true_iff.
  destruct (datetime_ltb c a) eqn:Hca; [|done].
  destruct (datetime_ltb_cotrans c b a Hca); congruence.
Qed.

Lemma min_datetime_least d l :
  ∀ x, x ∈ d :: l → datetime_leb (min_datetime d l) x = true.
Proof.
  unfold min_datetime. revert d. induction l as [|y l IH]; intros d x Hx; simpl.
  { apply list_elem_of_singleton in Hx as ->. apply datetime_leb_refl. }
  destruct (datetime_ltb y d) eqn:Hyd.
  - apply elem_of_cons in Hx as [->|Hx]; [|by apply IH].
    apply (datetime_leb_trans _ y); [apply IH; by left|].
    by apply datetime_ltb_leb.
  - apply elem_of_cons in Hx as [->|[->|Hx]%elem_of_cons].
    + apply IH. by left.
    + apply (datetime_leb_trans _ d); [apply IH; by left|].
      unfold datetime_leb. by rewrite Hyd.
    + apply IH. by right.
Qed.

Lemma max_datetime_greatest d l :
  ∀ x, x ∈ d :: l → datetime_leb x (max_datetime d l) = true.
Proof.
  unfold max_datetime. revert d. induction l as [|y l IH]; intros d x Hx; simpl.
  { apply list_elem_of_singleton in Hx as ->. apply datetime_leb_refl. }
  destruct (datetime_ltb d y) eqn:Hdy.
  - apply elem_of_cons in Hx as [->|Hx]; [|by apply IH].
    apply (datetime_leb_trans _ y); [|apply IH; by left].
    by apply datetime_ltb_leb.
  - apply elem_of_cons in Hx as [->|[->|Hx]%elem_of_cons].
    + apply IH. by left.
    + apply (datetime_leb_trans _ d); [|apply IH; by left].
      unfold datetime_leb. by rewrite Hdy.
    + apply IH. by right.
Qed.

Lemma min_datetime_elem d l : min_datetime d l ∈ d :: l.
Proof.
  unfold min_datetime. revert d. induction l as [|y l IH]; intros d; simpl; [by left|].
  destruct (datetime_ltb y d).
  - right. apply IH.
  - specialize (IH d). apply elem_of_cons in IH as [->|IH]; [by left|]. right. by right.
Qed.

Lemma max_datetime_elem d l : max_datetime d l ∈ d :: l.
Proof.
  unfold max_datetime. revert d. induction l as [|y l IH]; intros d; simpl; [by left|].
  destruct (datetime_ltb d y).
  - right. apply IH.
  - specialize (IH d). apply elem_of_cons in IH as [->|IH]; [by left|]. right. by right.
Qed.

Lemma minus_one_day_earlier d d' :
  minus_one_day d = Ok d' → datetime_ltb d' d = true.
Proof.
  unfold minus_one_day, datetime_ltb. destruct d as [y mo da h mi s]. simpl.
  destruct (N.ltb_spec 1 da); [intros [= <-]; simpl; compare_fields; lia|].
  destruct (N.ltb_spec 1 mo); [intros [= <-]; simpl; compare_fields; lia|].
  destruct (N.ltb_spec 1 y); [intros [= <-]; simpl; compare_fields; lia|done].
Qed.

Lemma plus_one_day_later d d' :
  plus_one_day d = Ok d' → datetime_ltb d d' = true.
Proof.
  unfold plus_one_day, datetime_ltb. destruct d as [y mo da h mi s]. simpl.
  destruct (N.ltb_spec da (days_in_month y mo)); [intros [= <-]; simpl; compare_fields; lia|].
  destruct (N.ltb_spec mo 12); [intros [= <-]; simpl; compare_fields; lia|].
  destruct (N.ltb_spec y 9999); [intros [= <-]; simpl; compare_fields; lia|done].
Qed.

Lemma event_times_elem (evs : list CalendarEvent) (t : datetime) :
  t ∈ map start_time evs ++ map end_time evs →
  ∃ e, e ∈ evs ∧ (t = start_time e ∨ t = end_time e).
Proof.
  intros [H|H]%elem_of_app; apply list_elem_of_fmap in H as (e & -> & He); eauto.
Qed.

(** The listing window of a run lies strictly around every event: it
    starts before each start and end time and ends after each of them. *)
Theorem time_window_covers evs time_min time_max e :
  time_window evs = Ok (time_min, time_max) →
  e ∈ evs →
  datetime_ltb time_min (start_time e) = true ∧
  datetime_ltb time_min (end_time e) = true ∧
  datetime_ltb (start_time e) time_max = true ∧
  datetime_ltb (end_time e) time_max = true.
Proof.
  unfold time_window. intros Hw He.
  assert (start_time e ∈ map start_time evs ++ map end_time evs) as Hs.
  { apply elem_of_app. left. by apply list_elem_of_fmap_2. }
  assert (end_time e ∈ map start_time evs ++ map end_time evs) as Hen.
  { apply elem_of_app. right. by apply list_elem_of_fmap_2. }
  destruct (map start_time evs ++ map end_time evs) as [|d rest]; [done|].
  destruct (minus_one_day (min_datetime d rest)) as [lo|] eqn:Hlo; [|done].
  destruct (plus_one_day (max_datetime d rest)) as [hi|] eqn:Hhi; [|done].
  injection Hw as <- <-.
  apply minus_one_day_earlier in Hlo. apply plus_one_day_later in Hhi.
  repeat split.
  - eapply datetime_ltb_leb_trans; [exact Hlo|]. by apply min_datetime_least.
  - eapply datetime_ltb_leb_trans; [exact Hlo|]. by apply min_datetime_least.
  - eapply datetime_leb_ltb_trans; [|exact Hhi]. by apply max_datetime_greatest.
  - eapply datetime_leb_ltb_trans; [|exact Hhi]. by apply max_datetime_greatest.
Qed.

Lemma minus_one_day_raises d m :
  datetime_ok d = true → minus_one_day d = Raise m →
  (year d, month d, day d) = (1, 1, 1)%N.
Proof.
  unfold datetime_ok, minus_one_day. rewrite !andb_true_iff, !N.leb_le.
  intros ((((((((? & ?) & ?) & ?) & ?) & ?) & ?) & ?) & ?).
  destruct (N.ltb_spec 1 (day d)); [done|].
  destruct (N.ltb_spec 1 (month d)); [done|].
  destruct (N.ltb_spec 1 (year d)); [done|]. intros _.
  f_equal; [f_equal|]; lia.
Qed.

Lemma plus_one_day_raises d m :
  datetime_ok d = true → plus_one_day d = Raise m →
  (year d, month d, day d) = (9999, 12, 31)%N.
Proof.
  unfold datetime_ok, plus_one_day. rewrite !andb_true_iff, !N.leb_le.
  intros ((((((((? & ?) & ?) & ?) & ?) & Hd) & ?) & ?) & ?).
  destruct (N.ltb_spec (day d) (days_in_month (year d) (month d))); [done|].
  destruct (N.ltb_spec (month d) 12); [done|].
  destruct (N.ltb_spec (year d) 9999); [done|]. intros _.
  assert (month d = 12%N) as Hm by lia.
  rewrite Hm in *. simpl in *. f_equal; [f_equal|]; lia.
Qed.

(** The window can be computed unless an event time lies on the first or
    the last day a datetime can hold: with events whose times are within
    the datetime ranges, [time_window] raises only if some start or end
    time falls on 0001-01-01 or on 9999-12-31. *)
Theorem time_window_overflow evs m :
  evs ≠ [] →
  Forall (fun e => datetime_ok (start_time e) = true ∧ datetime_ok (end_time e) = true) evs →
  time_window evs = Raise m →
  ∃ e t, e ∈ evs ∧ (t = start_time e ∨ t = end_time e) ∧
         ((year t, month t, day t) = (1, 1, 1)%N ∨
          (year t, month t, day t) = (9999, 12, 31)%N).
Proof.
  intros Hne Hok. unfold time_window.
  pose proof (event_times_elem evs) as Helem.
  destruct (map start_time evs ++ map end_time evs) as [|d rest] eqn:Ht.
  { destruct evs; [done|discriminate]. }
  assert (∀ t, t ∈ d :: rest → datetime_ok t = true) as Hall.
  { intros t (e & He & Hte)%Helem. rewrite Forall_forall in Hok.
    destruct (Hok e He) as [H1 H2]. by destruct Hte as [->| ->]. }
  destruct (minus_one_day (min_datetime d rest)) as [lo|m1] eqn:Hlo.
  - destruct (plus_one_day (max_datetime d rest)) as [hi|m2] eqn:Hhi; [done|].
    intros _. pose proof (max_datetime_elem d rest) as Hin.
    destruct (Helem _ Hin) as (e & He & Hte).
    exists e, (max_datetime d rest). split; [done|]. split; [done|]. right.
    eapply plus_one_day_raises; [by apply Hall|done].
  - intros _. pose proof (min_datetime_elem d rest) as Hin.
    destruct (Helem _ Hin) as (e & He & Hte).
    exists e, (min_datetime d rest). split; [done|]. split; [done|]. left.
    eapply minus_one_day_raises; [by apply Hall|done].
Qed.

(** ** Counting in the loop *)

Lemma check_existing_stats e w s :
  match (check_existing e w s).1.1 with
  | Continue => (check_existing e w s).2 = add_skipped s ∨ (check_existing e w s).2 = add_updated s
  | FallThrough => (check_existing e w s).2 = s
  end.
Proof.
  unfold check_existing. repeat case_match; simplify_eq/=; auto.
Qed.

Lemma retry_from_some n a m e w :
  n + a = m → 0 < n →
  ∀ r w', retry_from n a m e w = (Ok r, w') → ∃ id, r = Some id.
Proof.
  revert a w. induction n as [|n IH]; intros a w Hm Hn r w'; [lia|]. simpl.
  destruct (attempt_insert e w) as [[id|msg] w1]; [intros [= <- <-]; eauto|].
  destruct (Nat.ltb_spec a (m - 1)); [|done].
  apply IH; lia.
Qed.

Lemma link_or_create_stats snapshot e w s :
  let out := link_or_create snapshot e w s in
  match out.1.1 with
  | Ok _ => out.2 = add_skipped s ∨ out.2 = add_created s ∨
            (out.2 = s ∧ snapshot !! content_key e = None ∧
             (create_event_with_retry e 3 w).1 = Ok (Some ""))
  | Raise _ => out.2 = s
  end.
Proof.
  unfold link_or_create. destruct (snapshot !! content_key e); simpl; [auto|].
  pose proof (retry_from_some 3 0 3 e w) as Hsome.
  unfold create_event_with_retry in *.
  destruct (retry_from 3 0 3 e w) as [[[id|]|msg] w1] eqn:Hr; simpl; try done.
  - destruct (String.eqb id "") eqn:Hid; simpl.
    + apply String.eqb_eq in Hid as ->. auto.
    + destruct (Sql.insert _ _); simpl; [|done]. destruct (_ =? 0); simpl; auto.
  - destruct (Hsome eq_refl ltac:(lia) _ _ eq_refl) as [id [=]].
Qed.

Lemma process_event_counted snapshot w s e :
  let out := process_event snapshot (w, s) e in
  counted s ≤ counted out.2 ≤ S (counted s) ∧
  List.length (failed_list out.2) - List.length (failed_list s) = errors out.2 - errors s ∧
  List.length (failed_list s) ≤ List.length (failed_list out.2) ∧
  errors s ≤ errors out.2 ∧
  (counted out.2 = counted s →
   snapshot !! content_key e = None ∧
   ∃ w1, (create_event_with_retry e 3 w1).1 = Ok (Some "")).
Proof.
  unfold process_event.
  pose proof (check_existing_stats e w s) as H1.
  destruct (check_existing e w s) as [[[] w1] s1]; simpl in *.
  - destruct H1 as [-> | ->]; unfold counted; simpl; repeat split; lia.
  - subst s1. pose proof (link_or_create_stats snapshot e w1 s) as H2. simpl in H2.
    destruct (link_or_create snapshot e w1 s) as [[[] w2] s2]; simpl in *.
    + destruct H2 as [-> | [-> | (-> & Hsn & Hid)]]; unfold counted; simpl;
        repeat split; try lia; eauto.
    + subst s2. unfold counted; simpl. rewrite length_app. simpl.
      repeat split; lia.
Qed.

Lemma sync_loop_counted snapshot evs w s :
  let out := foldl (process_event snapshot) (w, s) evs in
  counted s ≤ counted out.2 ≤ counted s + List.length evs ∧
  List.length (failed_list out.2) + errors s = List.length (failed_list s) + errors out.2 ∧
  ((∀ e w1, (create_event_with_retry e 3 w1).1 ≠ Ok (Some "")) →
   counted out.2 = counted s + List.length evs).
Proof.
  revert w s. induction evs as [|e evs IH]; intros w s; simpl.
  { repeat split; lia. }
  pose proof (process_event_counted snapshot w s e) as (H1 & H2 & H3 & H4 & H5).
  destruct (process_event snapshot (w, s) e) as [w1 s1]. simpl in *.
  destruct (IH w1 s1) as (I1 & I2 & I3).
  split; [lia|]. split; [lia|].
  intros Hid. rewrite (I3 Hid).
  destruct (decide (counted s1 = counted s)) as [Heq|Hne]; [|lia].
  destruct (H5 Heq) as (_ & w0 & Hw0). by destruct (Hid e w0).
Qed.

(** A completed run counts every valid event at most once among created,
    updated, skipped and errors, and exactly once when no create returns an
    empty id; the in-memory failure list has one entry per error, and the
    samples in the response are its first five entries and the first five
    invalid reports. *)
Theorem sync_summary_accounts trigger sheet w summary w' :
  sync_events trigger sheet w = (Ok (Synced summary), w') →
  let reading := (read_sheet_events sheet (database w)).1 in
  res_total_processed summary = List.length (valid_events reading) ∧
  res_invalid_events summary = List.length (invalid_events reading) ∧
  res_created summary + res_updated summary + res_skipped summary + res_errors summary
    ≤ res_total_processed summary ∧
  ((∀ e w1, (create_event_with_retry e 3 w1).1 ≠ Ok (Some "")) →
   res_created summary + res_updated summary + res_skipped summary + res_errors summary
   = res_total_processed summary) ∧
  (∃ failures, List.length failures = res_errors summary ∧
               res_failed_events summary = sample 5 failures) ∧
  res_validation_errors summary = sample 5 (invalid_events reading).
Proof.
  intros Hrun reading. subst reading.
  destruct (sync_events_synced_inv _ _ _ _ _ Hrun) as (e & rest & tmin & tmax & Hv & Hw).
  rewrite (sync_events_run trigger sheet w e rest tmin tmax Hv Hw) in Hrun.
  injection Hrun as <- _. cbn [res_total_processed res_invalid_events res_created
    res_updated res_skipped res_errors res_failed_events res_validation_errors].
  rewrite Hv.
  unfold sync_loop.
  match goal with |- context [foldl (process_event ?sn) (?wl, zero_stats) ?l] =>
    pose proof (sync_loop_counted sn l wl zero_stats) as (H1 & H2 & H3);
    cbn zeta in H1, H2, H3;
    generalize dependent (foldl (process_event sn) (wl, zero_stats) l)
  end.
  intros out H1 H2 H3. unfold counted in *. simpl in H1, H2, H3.
  split; [done|]. split; [done|]. split; [simpl; lia|].
  split; [intros Hid; rewrite <- (H3 Hid); simpl; lia|].
  split; [|done]. exists (failed_list out.2). split; [lia|done].
Qed.

(** ** Recovery from a stale or failing link *)

Lemma create_succeeds snapshot e w s body id c' :
  snapshot !! content_key e = None →
  to_google_event e = Ok body →
  events_insert (calendar w) body = (Ok id, c') →
  id ≠ "" →
  existsb (Sql.conflicts (synced_row_of e id)) (synced w) = false →
  link_or_create snapshot e w s
  = (Ok tt,
     mk_World c'
       (mk_Database (synced w ++ [synced_row_of e id]) (sync_log (database w))
          (failed_events (database w)) (validation_errors (database w))
          (duplicate_events (database w)))
       (trace w ++ [CalendarInsert body] ++ batch_actions (created s)),
     add_created s).
Proof.
  intros Hsnap Hb Hins Hid Hfresh.
  unfold link_or_create. rewrite Hsnap.
  unfold create_event_with_retry. simpl. unfold attempt_insert. rewrite Hb. simpl.
  rewrite Hins. simpl. apply String.eqb_neq in Hid. rewrite Hid.
  unfold Sql.conflicts in Hfresh. rewrite existsb_orb in Hfresh.
  apply orb_false_iff in Hfresh as [Hu Hc].
  unfold Sql.insert. simpl in Hu, Hc. unfold synced in *. simpl. rewrite Hu, Hc.
  unfold batch_actions. simpl.
  destruct (_ =? 0); unfold set_synced, set_database, act; simpl;
    by rewrite <- ?app_assoc.
Qed.

Lemma delete_unique_gone uid t :
  existsb (Sql.same_unique uid) (Sql.delete_unique uid t) = false.
Proof.
  unfold Sql.delete_unique. induction t as [|r t IH]; simpl; [done|].
  destruct (Sql.same_unique uid r) eqn:Hr; simpl; [done|]. by rewrite Hr.
Qed.

(** A record whose calendar entry cannot be fetched is replaced: the
    handler deletes it, and when nothing in the snapshot matches and the
    create succeeds with an id no other record holds, the event is counted
    as created (not as an error), and its record links the new entry. *)
Theorem stale_record_is_recreated snapshot e w s record msg c body id c' :
  Sql.select_unique (unique_id e) (synced w) = Some record →
  events_get (calendar w) (calendar_event_id record) = (Raise msg, c) →
  snapshot !! content_key e = None →
  to_google_event e = Ok body →
  events_insert c body = (Ok id, c') →
  id ≠ "" →
  existsb (Sql.same_calendar id) (Sql.delete_unique (unique_id e) (synced w)) = false →
  let out := process_event snapshot (w, s) e in
  out.2 = add_created s ∧
  synced out.1 = Sql.delete_unique (unique_id e) (synced w) ++ [synced_row_of e id] ∧
  Sql.select_unique (unique_id e) (synced out.1) = Some (synced_row_of e id) ∧
  trace out.1
  = trace w ++ [CalendarGet (calendar_event_id record); CalendarInsert body]
      ++ batch_actions (created s).
Proof.
  intros Hsel Hget Hsnap Hb Hins Hid Hfresh out. subst out.
  unfold process_event.
  rewrite (stale_record_fetch_fails e w s record msg c Hsel Hget).
  erewrite (create_succeeds snapshot e _ s body id c'); try done.
  - cbn [fst snd]. split; [done|]. unfold synced. simpl. split; [done|].
    split; [|by rewrite <- app_assoc].
    apply (select_snoc_new (synced_row_of e id)). apply delete_unique_gone.
  - unfold Sql.conflicts. rewrite existsb_orb. unfold synced. simpl.
    apply orb_false_iff. split; [apply delete_unique_gone|done].
Qed.

(** A failed update is not an error either: the record is deleted and the
    event goes on to the snapshot lookup; when nothing matches and the
    create succeeds, the run counts one created and no update, the record
    links the new entry, and the entry that could not be updated is left in
    the calendar as it was. *)
Theorem failed_update_is_recreated
    snapshot e w s record cal_event c body msg c1 id c2 :
  Sql.select_unique (unique_id e) (synced w) = Some record →
  events_get (calendar w) (calendar_event_id record) = (Ok cal_event, c) →
  entry_status cal_event ≠ Some "cancelled" →
  event_hash record ≠ content_hash e →
  to_google_event e = Ok body →
  events_update c (calendar_event_id record) body = (Raise msg, c1) →
  snapshot !! content_key e = None →
  events_insert c1 body = (Ok id, c2) →
  id ≠ "" →
  existsb (Sql.same_calendar id) (Sql.delete_unique (unique_id e) (synced w)) = false →
  let out := process_event snapshot (w, s) e in
  out.2 = add_created s ∧
  Sql.select_unique (unique_id e) (synced out.1) = Some (synced_row_of e id) ∧
  trace out.1
  = trace w ++ [CalendarGet (calendar_event_id record);
                CalendarUpdate (calendar_event_id record) body;
                CalendarInsert body] ++ batch_actions (created s).
Proof.
  intros Hsel Hget Hst Hh Hb Hup Hsnap Hins Hid Hfresh out. subst out.
  unfold process_event.
  assert (check_existing e w s
          = (FallThrough,
             set_synced (Sql.delete_unique (unique_id e) (synced w))
               (mk_World c1 (database w)
                  (trace w ++ [CalendarGet (calendar_event_id record);
                               CalendarUpdate (calendar_event_id record) body])),
             s)) as ->.
  { unfold check_existing. rewrite Hsel. simpl. rewrite Hget.
    rewrite bool_decide_eq_false_2 by done.
    apply String.eqb_neq in Hh. rewrite Hh, Hb. simpl. rewrite Hup.
    unfold set_synced, set_database, set_calendar, act, synced. simpl.
    by rewrite <- app_assoc. }
  erewrite (create_succeeds snapshot e _ s body id c2); try done.
  - cbn [fst snd]. split; [done|]. unfold synced. simpl.
    split; [|by rewrite <- !app_assoc].
    apply (select_snoc_new (synced_row_of e id)). apply delete_unique_gone.
  - unfold Sql.conflicts. rewrite existsb_orb. unfold synced. simpl.
    apply orb_false_iff. split; [apply delete_unique_gone|done].
Qed.

(** ** Rate limiting *)

Lemma div_succ_batch c :
  S c / Config.BATCH_SIZE
  = c / Config.BATCH_SIZE + (if S c mod Config.BATCH_SIZE =? 0 then 1 else 0).
Proof.
  unfold Config.BATCH_SIZE.
  pose proof (Nat.div_mod_eq c 10). pose proof (Nat.div_mod_eq (S c) 10).
  pose proof (Nat.mod_upper_bound c 10). pose proof (Nat.mod_upper_bound (S c) 10).
  destruct (Nat.eqb_spec (S c mod 10) 0); lia.
Qed.

Lemma paced_app j k t1 t2 : paced j t1 → paced k t2 → paced (j + k) (t1 ++ t2).
Proof.
  unfold paced, count_actions. intros [H1 H2] [H3 H4].
  rewrite !List.filter_app, !length_app. lia.
Qed.

Lemma attempt_insert_trace e w :
  ∃ t, trace (attempt_insert e w).2 = trace w ++ t ∧ paced 0 t.
Proof.
  unfold attempt_insert. destruct (to_google_event e) as [body|m]; simpl.
  - destruct (events_insert _ _) as [r c]. simpl. by eexists.
  - exists []. by rewrite app_nil_r.
Qed.

Lemma retry_from_trace n a m e w :
  ∃ t, trace (retry_from n a m e w).2 = trace w ++ t ∧ paced 0 t.
Proof.
  revert a w. induction n as [|n IH]; intros a w; cbn [retry_from].
  { exists []. by rewrite app_nil_r. }
  destruct (attempt_insert_trace e w) as (t1 & Ht1 & Hp1).
  destruct (attempt_insert e w) as [[id|msg] w1]; cbn [fst snd] in *; [by exists t1|].
  destruct (a <? m - 1); [|by exists t1].
  destruct (IH (S a) (act (Sleep (Config.RETRY_DELAY * (a + 1))) w1)) as (t2 & Ht2 & Hp2).
  exists (t1 ++ [Sleep (Config.RETRY_DELAY * (a + 1))] ++ t2).
  rewrite Ht2. cbn [act trace]. rewrite Ht1, <- !app_assoc. split; [done|].
  apply (paced_app 0 0); [done|]. apply (paced_app 0 0); [|done].
  unfold paced, count_actions. cbn [List.filter is_batch_pause is_commit].
  destruct (Nat.eqb_spec (Config.RETRY_DELAY * (a + 1)) Config.RATE_LIMIT_DELAY) as [Heq|];
    [|done].
  unfold Config.RETRY_DELAY, Config.RATE_LIMIT_DELAY in Heq. lia.
Qed.

Lemma check_existing_trace e w s :
  ∃ t, trace (check_existing e w s).1.2 = trace w ++ t ∧ paced 0 t.
Proof.
  unfold check_existing.
  repeat case_match; simplify_eq/=;
    first [ by exists []; rewrite app_nil_r
          | by eexists [_]
          | eexists [_; _]; by rewrite <- app_assoc ].
Qed.

Lemma link_or_create_trace snapshot e w s :
  let out := link_or_create snapshot e w s in
  ∃ t k, trace out.1.2 = trace w ++ t ∧ paced k t ∧
         created out.2 / Config.BATCH_SIZE = created s / Config.BATCH_SIZE + k ∧
         created s ≤ created out.2.
Proof.
  cbv zeta. unfold link_or_create. destruct (snapshot !! content_key e).
  { exists [], 0. cbn [fst snd trace set_synced set_database created add_skipped].
    rewrite app_nil_r. split; [done|]. split; [done|]. lia. }
  unfold create_event_with_retry.
  destruct (retry_from_trace 3 0 3 e w) as (t1 & Ht1 & Hp1).
  destruct (retry_from 3 0 3 e w) as [r0 w1]. cbn [fst snd] in Ht1.
  assert (∀ r : Result unit, ∃ t k, trace (r, w1, s).1.2 = trace w ++ t ∧ paced k t ∧
            created (r, w1, s).2 / Config.BATCH_SIZE = created s / Config.BATCH_SIZE + k ∧
            created s ≤ created (r, w1, s).2) as Hquiet
    by (intros r; exists t1, 0; cbn [fst snd]; split; [done|]; split; [done|]; lia).
  destruct r0 as [[id|]|msg]; [|apply Hquiet..].
  destruct (String.eqb id ""); [apply Hquiet|].
  destruct (Sql.insert _ _) as [t|]; [|apply Hquiet].
  change (created (add_created s)) with (S (created s)).
  pose proof (div_succ_batch (created s)) as Hdiv.
  destruct (S (created s) mod Config.BATCH_SIZE =? 0);
    cbn [fst snd trace act set_synced set_database created add_created].
  - exists (t1 ++ [Sleep Config.RATE_LIMIT_DELAY; Commit]), 1.
    rewrite Ht1, <- !app_assoc. split; [done|]. split; [|lia].
    by apply (paced_app 0 1).
  - exists t1, 0. split; [done|]. split; [done|]. lia.
Qed.

Lemma process_event_trace snapshot w s e :
  let out := process_event snapshot (w, s) e in
  ∃ t k, trace out.1 = trace w ++ t ∧ paced k t ∧
         created out.2 / Config.BATCH_SIZE = created s / Config.BATCH_SIZE + k ∧
         created s ≤ created out.2.
Proof.
  unfold process_event.
  destruct (check_existing_trace e w s) as (t1 & Ht1 & Hp1).
  pose proof (check_existing_stats e w s) as Hs.
  destruct (check_existing e w s) as [[[] w1] s1]; simpl in *.
  - exists t1, 0. split; [done|]. split; [done|]. destruct Hs as [-> | ->]; simpl; lia.
  - subst s1. destruct (link_or_create_trace snapshot e w1 s) as (t2 & k & Ht2 & Hp2 & Hk & Hle).
    destruct (link_or_create snapshot e w1 s) as [[[] w2] s2]; simpl in *;
      exists (t1 ++ t2), k; rewrite Ht2, Ht1, <- app_assoc;
      (split; [done|]); (split; [by apply (paced_app 0 k)|]); done.
Qed.

Lemma sync_loop_trace snapshot evs w s :
  let out := foldl (process_event snapshot) (w, s) evs in
  ∃ t k, trace out.1 = trace w ++ t ∧ paced k t ∧
         created out.2 / Config.BATCH_SIZE = created s / Config.BATCH_SIZE + k.
Proof.
  revert w s. induction evs as [|e evs IH]; intros w s; simpl.
  { exists [], 0. rewrite app_nil_r. repeat split; lia. }
  destruct (process_event_trace snapshot w s e) as (t1 & k1 & Ht1 & Hp1 & Hk1 & _).
  destruct (process_event snapshot (w, s) e) as [w1 s1]. simpl in *.
  destruct (IH w1 s1) as (t2 & k2 & Ht2 & Hp2 & Hk2).
  exists (t1 ++ t2), (k1 + k2). rewrite Ht2, Ht1, <- app_assoc.
  split; [done|]. split; [by apply paced_app|]. lia.
Qed.

Lemma commit_and_save_trace w :
  trace (commit_and_save w)
  = trace w ++ Commit :: (if bucket then [Commit; SaveDatabase] else []).
Proof.
  unfold commit_and_save, save_database. destruct bucket; simpl.
  - by rewrite <- !app_assoc.
  - done.
Qed.

Lemma get_existing_calendar_events_trace tmin tmax w :
  ∃ n, trace (get_existing_calendar_events tmin tmax w).2
       = trace w ++ repeat (CalendarList (isoformat tmin +:+ "Z") (isoformat tmax +:+ "Z")) n.
Proof.
  unfold get_existing_calendar_events.
  destruct (events_list _ _ _) as [responses c].
  rewrite (index_listing_world _ _ responses ∅ w).
  exists (listing_calls responses). by destruct (listing_pages responses).
Qed.

Lemma count_actions_app p t1 t2 :
  count_actions p (t1 ++ t2) = count_actions p t1 + count_actions p t2.
Proof. unfold count_actions. by rewrite List.filter_app, length_app. Qed.

Lemma count_actions_listing p a b n :
  p (CalendarList a b) = false → count_actions p (repeat (CalendarList a b) n) = 0.
Proof.
  intros Hp. unfold count_actions. induction n as [|n IH]; simpl; [done|]. by rewrite Hp.
Qed.

(** The rate limiter: a completed run pauses once for every ten events it
    has created and commits after each pause; the delays of the retry loop
    are never mistaken for its pause.  At its end the run commits twice
    more, and twice again inside [save_database] when a bucket is set. *)
Theorem run_is_rate_limited trigger sheet w summary w' :
  sync_events trigger sheet w = (Ok (Synced summary), w') →
  ∃ t, trace w' = trace w ++ t ∧
       count_actions is_batch_pause t = res_created summary / Config.BATCH_SIZE ∧
       count_actions is_commit t
       = res_created summary / Config.BATCH_SIZE + (if bucket then 4 else 2).
Proof.
  intros Hrun.
  destruct (sync_events_synced_inv _ _ _ _ _ Hrun) as (e & rest & tmin & tmax & Hv & Hw).
  rewrite (sync_events_run trigger sheet w e rest tmin tmax Hv Hw) in Hrun.
  injection Hrun as <- <-. cbn [res_created]. unfold sync_loop.
  match goal with |- context [foldl (process_event ?sn) (?wl, zero_stats) ?l] =>
    destruct (sync_loop_trace sn l wl zero_stats) as (t & k & Ht & [Hp Hc] & Hk);
    generalize dependent (foldl (process_event sn) (wl, zero_stats) l)
  end.
  intros out Ht Hk. change (created zero_stats / Config.BATCH_SIZE) with 0 in Hk.
  match type of Ht with context [get_existing_calendar_events ?a ?b ?w0] =>
    destruct (get_existing_calendar_events_trace a b w0) as [n Hn] end.
  rewrite Hn in Ht. cbn [set_database act trace] in Ht.
  rewrite commit_and_save_trace. cbn [append_sync_log set_database trace].
  rewrite commit_and_save_trace, Ht.
  set (final := Commit :: (if bucket then [Commit; SaveDatabase] else [])).
  exists ([SheetsGet] ++ repeat (CalendarList (isoformat tmin +:+ "Z")
                                   (isoformat tmax +:+ "Z")) n ++ t ++ final ++ final).
  split; [by rewrite <- !app_assoc|].
  rewrite !count_actions_app, !count_actions_listing by done.
  rewrite Hp, Hc, Hk. subst final.
  destruct bucket; split; unfold count_actions; cbn [List.filter is_batch_pause is_commit
    List.length app]; lia.
Qed.

End MoreProperties.

(** * Further runs on concrete inputs *)
Section MoreConcrete.
Import InMemory Scenario MoreScenario.
Local Existing Instance env.

(** A sheet with the columns Event Name, Start and End only: its one data
    row is reported with 'Missing Event ID'. *)
Lemma sheet_without_event_id_column_witness :
  let r := (read_sheet_events (Ok [headers_without_id; row_without_id]) (database fresh)).1 in
  valid_events r = [] ∧ duplicate_tracking r = [] ∧
  List.length (invalid_events r) = 1 ∧
  Forall (fun inv => inv_error inv = "Missing Event ID") (invalid_events r).
Proof.
  apply (sheet_without_event_id_column headers_without_id row_without_id [] (database fresh)).
  vm_compute. intros H. by repeat (inversion H as [|? ? ? H']; subst; clear H; rename H' into H).
Defined.

(** A header row on its own: status "error", one sheet read, no calendar
    call. *)
Lemma sheet_without_data_witness :
  run sheet_headers_only fresh
  = (Ok (NoValidEvents "error" "No valid events in sheet" 0 []), act SheetsGet fresh).
Proof.
  apply (sheet_without_data "manual" sheet_headers_only fresh). vm_compute. lia.
Defined.

(** The cells of the Standup row under its headers. *)
Lemma event_data_lookup_witness :
  dict_get (make_event_data headers (row "A1" "Standup" "s" "e")) "Color" "9" = "" ∧
  dict_get (make_event_data headers (row "A1" "Standup" "s" "e")) "Event Name" "x" = "Standup" ∧
  dict_get (make_event_data headers (row "A1" "Standup" "s" "e")) "Location" "none" = "none".
Proof.
  split; [|split].
  - apply (proj2 (event_data_lookup headers (row "A1" "Standup" "s" "e") "Color" "9")
             (take 6 headers) (drop 7 headers)); [reflexivity|].
    vm_compute. intros H. by repeat (inversion H as [|? ? ? H']; subst; clear H; rename H' into H).
  - apply (proj2 (event_data_lookup headers (row "A1" "Standup" "s" "e") "Event Name" "x")
             (take 1 headers) (drop 2 headers)); [reflexivity|].
    vm_compute. intros H. by repeat (inversion H as [|? ? ? H']; subst; clear H; rename H' into H).
  - apply (proj1 (event_data_lookup headers (row "A1" "Standup" "s" "e") "Location" "none")).
    vm_compute. intros H. by repeat (inversion H as [|? ? ? H']; subst; clear H; rename H' into H).
Defined.

(** The window of the two weekly Standups: 28 February to 9 March. *)
Lemma time_window_covers_witness :
  let evs := valid_events (read_sheet_events sheet_weekly (database fresh)).1 in
  time_window evs = Ok (mk_datetime 2025 2 28 9 0 0, mk_datetime 2025 3 9 9 15 0) ∧
  Forall (fun e => datetime_ltb (mk_datetime 2025 2 28 9 0 0) (start_time e) = true ∧
                   datetime_ltb (end_time e) (mk_datetime 2025 3 9 9 15 0) = true) evs.
Proof.
  intros evs.
  assert (time_window evs = Ok (mk_datetime 2025 2 28 9 0 0, mk_datetime 2025 3 9 9 15 0))
    as Hw by (vm_compute; reflexivity).
  split; [exact Hw|]. apply Forall_forall. intros e He.
  destruct (time_window_covers evs _ _ e Hw He) as (H1 & _ & _ & H4). by split.
Defined.

(** An event on 31 December 9999: the window cannot be computed, and the
    event is the one the theorem points at. *)
Lemma time_window_overflow_witness :
  time_window [last_day] = Raise overflow_message ∧
  ∃ e t, e ∈ [last_day] ∧ (t = start_time e ∨ t = end_time e) ∧
         ((year t, month t, day t) = (1, 1, 1)%N ∨
          (year t, month t, day t) = (9999, 12, 31)%N).
Proof.
  assert (time_window [last_day] = Raise overflow_message) as Hw by (vm_compute; reflexivity).
  split; [exact Hw|].
  apply (time_window_overflow [last_day] overflow_message); [discriminate| |exact Hw].
  apply Forall_singleton. split; vm_compute; reflexivity.
Defined.

(** The weekly sheet on an empty calendar: two events, two created, no
    error, and the counters add up to the total. *)
Lemma sync_summary_accounts_witness :
  let summary := summary_of (run sheet_weekly fresh) in
  res_total_processed summary = 2 ∧
  res_created summary + res_updated summary + res_skipped summary + res_errors summary
    ≤ res_total_processed summary ∧
  res_invalid_events summary = 0.
Proof.
  intros summary.
  destruct (sync_summary_accounts "manual" sheet_weekly fresh summary
              (run sheet_weekly fresh).2) as (Ht & Hi & Hle & _).
  - vm_compute. reflexivity.
  - split; [rewrite Ht; vm_compute; reflexivity|]. split; [exact Hle|].
    rewrite Hi. vm_compute. reflexivity.
Defined.

(** The weekly sheet on an empty calendar, with a bucket: two created
    events, so no pause, and the four commits of the end of the run. *)
Lemma run_is_rate_limited_witness :
  ∃ t, trace (run sheet_weekly fresh).2 = trace fresh ++ t ∧
       count_actions is_batch_pause t = 0 ∧ count_actions is_commit t = 4.
Proof.
  destruct (run_is_rate_limited "manual" sheet_weekly fresh
              (summary_of (run sheet_weekly fresh)) (run sheet_weekly fresh).2)
    as (t & Ht & Hp & Hc).
  - vm_compute. reflexivity.
  - exists t. split; [exact Ht|]. split; [rewrite Hp|rewrite Hc]; vm_compute; reflexivity.
Defined.

(** The Standup record points at evt0 and the calendar has lost the entry:
    the event is created again as evt1 and counted as created. *)
Lemma stale_record_is_recreated_witness :
  let out := process_event ∅ (entry_lost, zero_stats) standup in
  out.2 = add_created zero_stats ∧
  map calendar_event_id (synced out.1) = ["evt1"] ∧
  List.length (trace out.1) = 2.
Proof.
  edestruct (stale_record_is_recreated ∅ standup entry_lost zero_stats)
    as (Hs & Hsy & _ & Htr).
  - vm_compute. reflexivity.
  - vm_compute. reflexivity.
  - vm_compute. reflexivity.
  - vm_compute. reflexivity.
  - vm_compute. reflexivity.
  - discriminate.
  - vm_compute. reflexivity.
  - cbv zeta. rewrite Hs, Hsy, Htr. vm_compute. repeat split; reflexivity.
Defined.

(** Standup with a later end on a calendar that refuses updates: after
    the failed update the event is created as evt1 and counted as created,
    and evt0 stays in the calendar. *)
Lemma failed_update_is_recreated_witness :
  let out := process_event (E := read_only_env) ∅ (entry_read_only, zero_stats) standup_later in
  out.2 = add_created zero_stats ∧
  map calendar_event_id (synced out.1) = ["evt1"] ∧
  List.length (trace out.1) = 3 ∧
  map entry_id (entries (calendar out.1)) = ["evt0"; "evt1"].
Proof.
  edestruct (failed_update_is_recreated (E := read_only_env) ∅ standup_later entry_read_only
               zero_stats) as (Hs & _ & Htr).
  - vm_compute. reflexivity.
  - vm_compute. reflexivity.
  - discriminate.
  - vm_compute. discriminate.
  - vm_compute. reflexivity.
  - vm_compute. reflexivity.
  - vm_compute. reflexivity.
  - vm_compute. reflexivity.
  - discriminate.
  - vm_compute. reflexivity.
  - cbv zeta. rewrite Hs, Htr. vm_compute. repeat split; reflexivity.
Defined.

End MoreConcrete.
